(** * golink storage backends: SQLiteDB (sqlite.go) and ConvexDB (convex.go)

    A shallow embedding of the two storage backends of the short-link
    service.  Go values are modelled as follows.

    - [string] is Go's [string]; Go's [int], [int64] are [Z] (range checks are
      written out where the code or the SQL engine performs one).
    - Go maps ([ClickStats], [linkmap], the RPC [Args]) are stdpp [gmap]s.
    - A [(T, error)] result is [error + T]; a bare [error] result is
      [option error] ([None] is Go's [nil]).
    - The SQL engine, the HTTP transport and the JSON scanner are outside
      the repository.  The tables are lists of rows on which each SQL
      statement of the source is given its SQL meaning; whether an engine
      or network call fails is an explicit argument of the operation that
      performs it, so that every error branch of the source is kept.
    - [linkID] (the identifier normaliser) is declared outside sqlite.go
      and convex.go; it is a [Variable] of the sections below, so every
      general statement holds for any normaliser. *)

From Stdlib Require Import ZArith List String Ascii Lia.
From Stdlib Require Import Floats.SpecFloat.
From stdpp Require Import base gmap strings list pretty.

Local Open Scope Z_scope.
Set Warnings "-register-all".

(** ** Errors *)

Inductive error : Type :=
| ErrNoRows                                   (* sql.ErrNoRows *)
| ErrNotExist                                 (* fs.ErrNotExist *)
| EOF                                         (* io.EOF *)
| Errorf (msg : string)                       (* fmt.Errorf(...) *)
| UnmarshalTypeError (value field : string)   (* *json.UnmarshalTypeError *)
| DriverError (msg : string).                 (* reported by the SQL driver, net/http or the JSON scanner *)

Global Instance error_eq_dec : EqDecision error.
Proof. solve_decision. Defined.

(** [errors.Is(err, target)]; none of the errors above wraps another. *)
Definition errors_Is (err target : error) : bool := bool_decide (err = target).

(** ** time.Time *)

Inductive Location : Type :=
| UTC
| Local
| FixedZone (name : string) (offset : Z).

(** An instant: whole seconds since the Unix epoch, nanoseconds within
    that second (0 <= nsec < 10^9) and the location used for display. *)
Record Time : Type := mkTime { unix_sec : Z; nsec : Z; loc : Location }.

(** [t.Unix()] *)
Definition Time_Unix (t : Time) : Z := unix_sec t.

(** [time.Unix(sec, nsec)]: nsec outside [0, 999999999] is carried into
    the seconds; the result is in the local zone. *)
Definition time_Unix (sec nsec : Z) : Time :=
  {| unix_sec := sec + nsec `div` 1000000000;
     nsec := nsec `mod` 1000000000;
     loc := Local |}.

(** [t.UTC()] *)
Definition Time_UTC (t : Time) : Time :=
  {| unix_sec := unix_sec t; nsec := nsec t; loc := UTC |}.

(** [t.Truncate(time.Second)]: the instant rounded down to a whole second. *)
Definition Time_Truncate_Second (t : Time) : Time :=
  {| unix_sec := unix_sec t; nsec := 0; loc := loc t |}.

(** ** Entities *)

(** Modelled from the spec: the [Link] struct is declared outside
    sqlite.go and convex.go; its fields are the ones of the data model
    (short, long, created, lastEdit, owner), with the names and types
    the source uses them at. *)
Record Link : Type := mkLink {
  Short : string;
  Long : string;
  Created : Time;
  LastEdit : Time;
  Owner : string
}.

(** Modelled from the spec: [ClickStats] is declared outside sqlite.go
    and convex.go; LoadStats returns a [map[string]int] at this type. *)
Abbreviation ClickStats := (gmap string Z).

(** Go's [m[k]] on a [map[string]int]: the zero value when [k] is absent. *)
Definition clicks_at (m : ClickStats) (k : string) : Z := default 0 (m !! k).

(** 64-bit signed integers. *)
Definition int64_min : Z := - 2 ^ 63.
Definition int64_max : Z := 2 ^ 63 - 1.
Definition is_int64 (z : Z) : bool := (int64_min <=? z) && (z <=? int64_max).

(** Modelled from the spec: [linkID] is declared outside sqlite.go and
    convex.go and the spec fixes only that it is pure, total, idempotent
    and case-stable.  This instance lower-cases the ASCII letters; it
    serves the evaluations on concrete inputs only. *)
Definition lower_ascii (c : ascii) : ascii :=
  let n := nat_of_ascii c in
  if ((65 <=? n) && (n <=? 90))%nat then ascii_of_nat (n + 32) else c.

Fixpoint to_lower (s : string) : string :=
  match s with
  | EmptyString => EmptyString
  | String c rest => String (lower_ascii c) (to_lower rest)
  end.

Definition linkID_lower (short : string) : string := to_lower short.

(** * The local store (sqlite.go) *)

Module SQLite.

(** ** Tables *)

(** Modelled from the spec: schema.sql is embedded from a file of its
    own.  Links has the normalised identifier as primary
    key and the columns short, long, created and lastEdit (epoch
    seconds) and owner; Stats is an append-only ledger of
    (identifier, created, clicks). *)
Record LinkRow : Type := mkLinkRow {
  row_ID : string;
  row_Short : string;
  row_Long : string;
  row_Created : Z;
  row_LastEdit : Z;
  row_Owner : string
}.

Record StatsRow : Type := mkStatsRow {
  stat_ID : string;
  stat_Created : Z;
  stat_Clicks : Z
}.

Global Instance LinkRow_eq_dec : EqDecision LinkRow.
Proof. solve_decision. Defined.

(** The persisted state behind [SQLiteDB.db]; the mutex [mu] serialises
    the operations and has no sequential content. *)
Record SQLiteDB : Type := mkDB {
  Links : list LinkRow;
  Stats : list StatsRow
}.

(** The database right after [NewSQLiteDB] ran the schema on a new file. *)
Definition empty_db : SQLiteDB := {| Links := []; Stats := [] |}.

(** ** The SQL statements of the source *)

(** [SELECT ... FROM Links WHERE ID = ?1 LIMIT 1] *)
Definition select_link_where_id (id : string) (t : list LinkRow) : option LinkRow :=
  head (filter (λ r, row_ID r = id) t).

(** [INSERT OR REPLACE INTO Links ...]: the row holding the same primary
    key, if any, is deleted and the new row is inserted. *)
Definition insert_or_replace (r : LinkRow) (t : list LinkRow) : list LinkRow :=
  filter (λ x, row_ID x ≠ row_ID r) t ++ [r].

(** [sum(Clicks)] over integers: the engine raises "integer overflow" as
    soon as the running sum leaves the 64-bit range. *)
Fixpoint sum_int64 (acc : Z) (xs : list Z) : option Z :=
  match xs with
  | [] => Some acc
  | x :: rest => if is_int64 (acc + x) then sum_int64 (acc + x) rest else None
  end.

Definition clicks_of_id (id : string) (t : list StatsRow) : list Z :=
  stat_Clicks <$> filter (λ r, stat_ID r = id) t.

(** [SELECT ID, sum(Clicks) FROM Stats GROUP BY ID]: one row per
    identifier of the ledger.  SQL leaves the order of the groups open;
    no statement below depends on it. *)
Definition select_sum_clicks_group_by_id (t : list StatsRow) : option (list (string * Z)) :=
  mapM (λ id, pair id <$> sum_int64 0 (clicks_of_id id t)) (remove_dups (stat_ID <$> t)).

(** ** Engine outcomes *)

(** What [db.Exec] followed by [result.RowsAffected] reports: the
    statement failed, or it ran and the count is an error or a number. *)
Inductive exec_outcome : Type :=
| ExecFails (err : error)
| ExecDone (affected : error + Z).

(** Failures of one [SaveStats] transaction: of [BeginTx], of the i-th
    [tx.Exec] (counted from 0) and of [Commit]. *)
Record tx_faults : Type := mkFaults {
  begin_fault : option error;
  exec_fault : nat → option error;
  commit_fault : option error
}.

Definition no_faults : tx_faults :=
  {| begin_fault := None; exec_fault := λ _, None; commit_fault := None |}.

(** An open transaction: the database it started from and the rows
    inserted so far. *)
Record Tx : Type := mkTx { tx_db : SQLiteDB; tx_rows : list StatsRow }.

Definition BeginTx (s : SQLiteDB) : Tx := {| tx_db := s; tx_rows := [] |}.

(** [INSERT INTO Stats (ID, Created, Clicks) VALUES (?, ?, ?)] inside the
    transaction. *)
Definition tx_Exec (tx : Tx) (r : StatsRow) : Tx :=
  {| tx_db := tx_db tx; tx_rows := tx_rows tx ++ [r] |}.

Definition Rollback (tx : Tx) : SQLiteDB := tx_db tx.

Definition Commit (tx : Tx) : SQLiteDB :=
  {| Links := Links (tx_db tx); Stats := Stats (tx_db tx) ++ tx_rows tx |}.

Section Backend.

Variable linkID : string → string.

(** ** LoadAll, Load *)

(** One scanned row: [time.Unix(created, 0).UTC()] for both timestamps. *)
Definition link_of_row (r : LinkRow) : Link :=
  {| Short := row_Short r;
     Long := row_Long r;
     Created := Time_UTC (time_Unix (row_Created r) 0);
     LastEdit := Time_UTC (time_Unix (row_LastEdit r) 0);
     Owner := row_Owner r |}.

(** [io] is the failure, if any, that the engine reports while the query
    is answered (from [Query], [Scan] or [rows.Err]); a caller of the Go
    function that sees a non-nil error does not use the slice. *)
Definition LoadAll (s : SQLiteDB) (io : option error) : error + list Link :=
  match io with
  | Some err => inl err
  | None => inr (link_of_row <$> Links s)
  end.

(** [QueryRow(...).Scan(...)]: sql.ErrNoRows when the query has no row. *)
Definition QueryRow_Scan (s : SQLiteDB) (io : option error) (id : string) : error + LinkRow :=
  match io with
  | Some err => inl err
  | None =>
      match select_link_where_id id (Links s) with
      | None => inl ErrNoRows
      | Some r => inr r
      end
  end.

Definition Load (s : SQLiteDB) (io : option error) (short : string) : error + Link :=
  match QueryRow_Scan s io (linkID short) with
  | inl err => inl (if errors_Is err ErrNoRows then ErrNotExist else err)
  | inr r => inr (link_of_row r)
  end.

(** ** Save *)

Definition row_of_link (link : Link) : LinkRow :=
  {| row_ID := linkID (Short link);
     row_Short := Short link;
     row_Long := Long link;
     row_Created := Time_Unix (Created link);
     row_LastEdit := Time_Unix (LastEdit link);
     row_Owner := Owner link |}.

Definition Save (s : SQLiteDB) (o : exec_outcome) (link : Link) : SQLiteDB * option error :=
  match o with
  | ExecFails err => (s, Some err)
  | ExecDone affected =>
      let s' := {| Links := insert_or_replace (row_of_link link) (Links s);
                   Stats := Stats s |} in
      match affected with
      | inl err => (s', Some err)
      | inr rows =>
          if bool_decide (rows ≠ 1)
          then (s', Some (Errorf ("expected to affect 1 row, affected " +:+ pretty rows)))
          else (s', None)
      end
  end.

(** ** LoadStats *)

(** [linkmap[linkID(link.Short)] = link.Short] for every loaded link. *)
Definition linkmap_of (allLinks : list Link) : gmap string string :=
  foldl (λ m link, <[linkID (Short link) := Short link]> m) ∅ allLinks.

(** The body of the loop over the grouped rows:
    [short := linkmap[id]; stats[short] = clicks].  Indexing a Go map at
    an absent key yields the zero value, the empty string. *)
Definition record_group (linkmap : gmap string string) (stats : ClickStats)
    (row : string * Z) : ClickStats :=
  let short := default ""%string (linkmap !! row.1) in
  <[short := row.2]> stats.

Definition LoadStats (s : SQLiteDB) (io1 io2 : option error) : error + ClickStats :=
  match LoadAll s io1 with
  | inl err => inl err
  | inr allLinks =>
      let linkmap := linkmap_of allLinks in
      match io2 with
      | Some err => inl err
      | None =>
          match select_sum_clicks_group_by_id (Stats s) with
          | None => inl (DriverError "integer overflow")
          | Some rows => inr (foldl (record_group linkmap) ∅ rows)
          end
      end
  end.

(** ** SaveStats *)

(** The loop [for short, clicks := range stats]: the i-th [tx.Exec]
    either fails, in which case the transaction is rolled back and the
    loop returns that error, or adds its row to the transaction. *)
Fixpoint exec_all (faults : nat → option error) (i : nat) (now : Z)
    (entries : list (string * Z)) (tx : Tx) : SQLiteDB * error + Tx :=
  match entries with
  | [] => inr tx
  | (short, clicks) :: rest =>
      match faults i with
      | Some err => inl (Rollback tx, err)
      | None =>
          exec_all faults (S i) now rest
            (tx_Exec tx {| stat_ID := linkID short; stat_Created := now; stat_Clicks := clicks |})
      end
  end.

(** [now] is [time.Now().Unix()].  Go ranges over a map in an order of
    its choosing; [map_to_list] stands for that order.  A [Commit] that
    fails leaves the database as it was. *)
Definition SaveStats (s : SQLiteDB) (f : tx_faults) (stats : ClickStats) (now : Z)
    : SQLiteDB * option error :=
  match begin_fault f with
  | Some err => (s, Some err)
  | None =>
      match exec_all (exec_fault f) 0%nat now (map_to_list stats) (BeginTx s) with
      | inl (s', err) => (s', Some err)
      | inr tx' =>
          match commit_fault f with
          | Some err => (s, Some err)
          | None => (Commit tx', None)
          end
      end
  end.

End Backend.

End SQLite.

(** * The remote store (convex.go) *)

Module Convex.

(** ** float64 *)

(** IEEE 754 binary64, as specified by the standard library. *)
Definition float64 : Type := spec_float.

(** [float64(n)] for an integer [n], and [strconv.ParseFloat] on an
    integer literal: the nearest binary64, ties to even. *)
Definition float64_of_Z (n : Z) : float64 := binary_normalize 53 1024 n 0 false.

(** [int64(f)]: the fraction is discarded.  Go leaves the result open
    when the value does not fit; amd64 yields the least int64. *)
Definition int64_of_float64 (f : float64) : Z :=
  match f with
  | S754_zero _ => 0
  | S754_finite s m e =>
      let mag := if 0 <=? e then Z.pos m * 2 ^ e else Z.pos m `div` 2 ^ (- e) in
      let v := if s then - mag else mag in
      if is_int64 v then v else int64_min
  | _ => int64_min
  end.

Definition is_finite (f : float64) : bool :=
  match f with
  | S754_zero _ | S754_finite _ _ _ => true
  | _ => false
  end.

(** The integer that a binary64 value equals, when it is a whole number. *)
Definition float64_integer (f : float64) : option Z :=
  match f with
  | S754_zero _ => Some 0
  | S754_finite s m e =>
      if 0 <=? e then Some (if s then - (Z.pos m * 2 ^ e) else Z.pos m * 2 ^ e)
      else if Z.pos m `mod` 2 ^ (- e) =? 0
           then Some (if s then - (Z.pos m `div` 2 ^ (- e)) else Z.pos m `div` 2 ^ (- e))
           else None
  | _ => None
  end.

(** ** JSON values *)

(** A JSON text as the scanner of encoding/json delivers it.  Number
    literals are integers: epoch seconds are the only numbers that the
    documents of this protocol carry. *)
Inductive json : Type :=
| JNull
| JBool (b : bool)
| JNum (n : Z)
| JStr (s : string)
| JArr (elems : list json)
| JObj (members : list (string * json)).

(** The [Value] of an UnmarshalTypeError. *)
Definition json_kind (j : json) : string :=
  match j with
  | JNull => "null"
  | JBool _ => "bool"
  | JNum n => "number " +:+ pretty n
  | JStr _ => "string"
  | JArr _ => "array"
  | JObj _ => "object"
  end.

(** An object key selects the struct field whose JSON name it equals up
    to the case of letters (ASCII letters here). *)
Definition key_matches (key name : string) : bool :=
  String.eqb (to_lower key) (to_lower name).

(** The decoder records the first type error and goes on. *)
Definition saveError (saved : option error) (err : error) : option error :=
  match saved with
  | Some _ => saved
  | None => Some err
  end.

(** Decoding into a [string] field: [null] leaves the field as it is. *)
Definition decode_string (field : string) (j : json) (old : string) (saved : option error)
    : string * option error :=
  match j with
  | JStr s => (s, saved)
  | JNull => (old, saved)
  | _ => (old, saveError saved (UnmarshalTypeError (json_kind j) field))
  end.

(** Decoding into a [float64] field: the literal goes through
    [strconv.ParseFloat]; a literal beyond the binary64 range is a type
    error.  [UseNumber] changes the decoding into [interface{}] targets
    only and has no bearing on this field. *)
Definition decode_float64 (field : string) (j : json) (old : float64) (saved : option error)
    : float64 * option error :=
  match j with
  | JNum n =>
      let f := float64_of_Z n in
      if is_finite f then (f, saved)
      else (old, saveError saved (UnmarshalTypeError (json_kind j) field))
  | JNull => (old, saved)
  | _ => (old, saveError saved (UnmarshalTypeError (json_kind j) field))
  end.

(** ** Wire records *)

Record LinkDocument : Type := mkDoc {
  doc_Id : string;           (* Id       `json:"normalizedId"` *)
  doc_Short : string;        (* Short    `json:"short"` *)
  doc_Long : string;         (* Long     `json:"long"` *)
  doc_Created : float64;     (* Created  `json:"created"` *)
  doc_LastEdit : float64;    (* LastEdit `json:"lastEdit"` *)
  doc_Owner : string         (* Owner    `json:"owner"` *)
}.

Definition zero_LinkDocument : LinkDocument :=
  {| doc_Id := ""; doc_Short := ""; doc_Long := "";
     doc_Created := S754_zero false; doc_LastEdit := S754_zero false;
     doc_Owner := "" |}.

(** One object member decoded into a LinkDocument. *)
Definition set_doc_field (st : LinkDocument * option error) (member : string * json)
    : LinkDocument * option error :=
  let '(d, saved) := st in
  let '(key, v) := member in
  if key_matches key "normalizedId" then
    let '(x, sv) := decode_string "normalizedId" v (doc_Id d) saved in
    (mkDoc x (doc_Short d) (doc_Long d) (doc_Created d) (doc_LastEdit d) (doc_Owner d), sv)
  else if key_matches key "short" then
    let '(x, sv) := decode_string "short" v (doc_Short d) saved in
    (mkDoc (doc_Id d) x (doc_Long d) (doc_Created d) (doc_LastEdit d) (doc_Owner d), sv)
  else if key_matches key "long" then
    let '(x, sv) := decode_string "long" v (doc_Long d) saved in
    (mkDoc (doc_Id d) (doc_Short d) x (doc_Created d) (doc_LastEdit d) (doc_Owner d), sv)
  else if key_matches key "created" then
    let '(x, sv) := decode_float64 "created" v (doc_Created d) saved in
    (mkDoc (doc_Id d) (doc_Short d) (doc_Long d) x (doc_LastEdit d) (doc_Owner d), sv)
  else if key_matches key "lastEdit" then
    let '(x, sv) := decode_float64 "lastEdit" v (doc_LastEdit d) saved in
    (mkDoc (doc_Id d) (doc_Short d) (doc_Long d) (doc_Created d) x (doc_Owner d), sv)
  else if key_matches key "owner" then
    let '(x, sv) := decode_string "owner" v (doc_Owner d) saved in
    (mkDoc (doc_Id d) (doc_Short d) (doc_Long d) (doc_Created d) (doc_LastEdit d) x, sv)
  else (d, saved).

(** A JSON value decoded into a LinkDocument struct: the members of an
    object are taken in order, [null] changes nothing, anything else is
    a type error. *)
Definition decode_doc_into (st : LinkDocument * option error) (j : json)
    : LinkDocument * option error :=
  match j with
  | JObj members => foldl set_doc_field st members
  | JNull => st
  | _ => (st.1, saveError st.2 (UnmarshalTypeError (json_kind j) "LinkDocument"))
  end.

(** [json.RawMessage]: the bytes of one JSON value, or no bytes at all. *)
Definition RawMessage : Type := option json.

(** [decoder.Decode(&doc)] with [var doc *LinkDocument]: a stream
    without bytes ends the decoder with io.EOF; [null] leaves the
    pointer nil. *)
Definition Decode_doc_ptr (raw : RawMessage) : error + option LinkDocument :=
  match raw with
  | None => inl EOF
  | Some JNull => inr None
  | Some j =>
      match decode_doc_into (zero_LinkDocument, None) j with
      | (_, Some err) => inl err
      | (d, None) => inr (Some d)
      end
  end.

(** One array element appended to the slice being decoded. *)
Definition append_doc (st : list LinkDocument * option error) (j : json)
    : list LinkDocument * option error :=
  let '(d, saved) := decode_doc_into (zero_LinkDocument, st.2) j in
  (st.1 ++ [d], saved).

(** [decoder.Decode(&docs)] with [var docs []LinkDocument]. *)
Definition Decode_docs (raw : RawMessage) : error + list LinkDocument :=
  match raw with
  | None => inl EOF
  | Some JNull => inr []
  | Some (JArr elems) =>
      match foldl append_doc ([], None) elems with
      | (_, Some err) => inl err
      | (docs, None) => inr docs
      end
  | Some j => inl (UnmarshalTypeError (json_kind j) "[]LinkDocument")
  end.

Record ConvexResponse : Type := mkResponse {
  Status : string;           (* `json:"status"` *)
  Value : RawMessage;        (* `json:"value"` *)
  ErrorMessage : string      (* `json:"errorMessage"` *)
}.

Definition zero_ConvexResponse : ConvexResponse :=
  {| Status := ""; Value := None; ErrorMessage := "" |}.

(** One object member decoded into a ConvexResponse; a RawMessage field
    takes the value as it stands, [null] included. *)
Definition set_response_field (st : ConvexResponse * option error) (member : string * json)
    : ConvexResponse * option error :=
  let '(r, saved) := st in
  let '(key, v) := member in
  if key_matches key "status" then
    let '(x, sv) := decode_string "status" v (Status r) saved in
    (mkResponse x (Value r) (ErrorMessage r), sv)
  else if key_matches key "value" then
    (mkResponse (Status r) (Some v) (ErrorMessage r), saved)
  else if key_matches key "errorMessage" then
    let '(x, sv) := decode_string "errorMessage" v (ErrorMessage r) saved in
    (mkResponse (Status r) (Value r) x, sv)
  else (r, saved).

(** The envelope decoded from the first JSON value of the body. *)
Definition Decode_response (j : json) : error + ConvexResponse :=
  match j with
  | JObj members =>
      match foldl set_response_field (zero_ConvexResponse, None) members with
      | (_, Some err) => inl err
      | (r, None) => inr r
      end
  | JNull => inr zero_ConvexResponse
  | _ => inl (UnmarshalTypeError (json_kind j) "ConvexResponse")
  end.

(** The values stored in [Args map[string]interface{}] by this file. *)
Inductive arg : Type :=
| ArgString (s : string)
| ArgLink (document : LinkDocument)
| ArgStats (stats : gmap string Z).

Record UdfExecution : Type := mkUdf {
  Path : string;
  Args : gmap string arg;
  Format : string
}.

Record ConvexDB : Type := mkConvex { url : string; token : string }.

Definition NewConvexDB (url token : string) : ConvexDB :=
  {| url := url; token := token |}.

(** An HTTP response: the status code and the bytes of the body. *)
Record Response : Type := mkHTTP { StatusCode : Z; Body : string }.

(** ** The click totals of the remote service *)

(** A Go call either panics or returns. *)
Inductive outcome (A : Type) : Type :=
| Panics (msg : string)
| Returns (a : A).

Arguments Panics {A} msg.
Arguments Returns {A} a.

(** [type StatsMap = map[string]interface{}].  [decoder.Decode(&stats)]
    with [UseNumber]: the members of an object are stored in order, a
    later member replacing an earlier one with the same key; a number
    is kept as the [json.Number] of its literal and every other value
    as a value of its own dynamic type, so both are the JSON value
    itself here.  [null] leaves the map nil. *)
Definition Decode_StatsMap (raw : RawMessage) : error + gmap string json :=
  match raw with
  | None => inl EOF
  | Some JNull => inr ∅
  | Some (JObj members) => inr (foldl (λ stats kv, <[kv.1 := kv.2]> stats) ∅ members)
  | Some j => inl (UnmarshalTypeError (json_kind j) "map[string]interface {}")
  end.

(** [json.Number.Float64]: [strconv.ParseFloat] of the literal, which
    reports a literal beyond the binary64 range as a *strconv.NumError. *)
Definition Number_Float64 (n : Z) : error + float64 :=
  let f := float64_of_Z n in
  if is_finite f then inr f
  else inl (DriverError ("strconv.ParseFloat: parsing " +:+ pretty n +:+ ": value out of range")).

(** The loop [for k, v := range stats] of [LoadStats]: the type
    assertion [v.(json.Number)] panics on a value that is not a number;
    [int(num)] is the conversion of [int64_of_float64]. *)
Fixpoint collect_clicks (entries : list (string * json)) (clicks : ClickStats)
    : outcome (error + ClickStats) :=
  match entries with
  | [] => Returns (inr clicks)
  | (k, v) :: rest =>
      match v with
      | JNum n =>
          match Number_Float64 n with
          | inl err => Returns (inl err)
          | inr num => collect_clicks rest (<[k := int64_of_float64 num]> clicks)
          end
      | _ => Panics "interface conversion: interface {} is not json.Number"
      end
  end.

Section Client.

Variable linkID : string → string.

(** [json.Marshal] of the request. *)
Variable json_Marshal : UdfExecution → error + string.

(** [http.Post(url, contentType, body)]: the server and the network. *)
Variable http_Post : string → string → string → error + Response.

(** The scanner of [json.NewDecoder(resp.Body)]: the first JSON value of
    the body, or the failure to read one. *)
Variable json_scan : string → error + json.

(** What [%s] prints for the reader [resp.Body]. *)
Variable Sprint_reader : Response → string.

(** [args.Args["token"] = c.token]: [args] is a pointer, so the caller
    sees the map with the token; the updated request is returned next
    to the result. *)
Definition with_token (c : ConvexDB) (args : UdfExecution) : UdfExecution :=
  {| Path := Path args;
     Args := <["token"%string := ArgString (token c)]> (Args args);
     Format := Format args |}.

Definition mutation (c : ConvexDB) (args : UdfExecution) : UdfExecution * option error :=
  let args := with_token c args in
  let url := (url c +:+ "/api/mutation")%string in
  match json_Marshal args with
  | inl err => (args, Some err)
  | inr encodedArgs =>
      match http_Post url "application/json" encodedArgs with
      | inl err => (args, Some err)
      | inr resp =>
          if bool_decide (StatusCode resp ≠ 200) then
            (args, Some (Errorf ("unexpected status code from Convex: " +:+ pretty (StatusCode resp))))
          else
            match json_scan (Body resp) with
            | inl err => (args, Some err)
            | inr j =>
                match Decode_response j with
                | inl err => (args, Some err)
                | inr convexResponse =>
                    if String.eqb (Status convexResponse) "success" then (args, None)
                    else if String.eqb (Status convexResponse) "error" then
                      (args, Some (Errorf ("error from Convex: " +:+ ErrorMessage convexResponse)))
                    else
                      (args, Some (Errorf ("unexpected response from Convex: " +:+ Sprint_reader resp)))
                end
            end
      end
  end.

Definition query (c : ConvexDB) (args : UdfExecution) : UdfExecution * (error + RawMessage) :=
  let args := with_token c args in
  let url := (url c +:+ "/api/query")%string in
  match json_Marshal args with
  | inl err => (args, inl err)
  | inr encodedArgs =>
      match http_Post url "application/json" encodedArgs with
      | inl err => (args, inl err)
      | inr resp =>
          if bool_decide (StatusCode resp ≠ 200) then
            (args, inl (Errorf ("unexpected status code from Convex: "
                                +:+ pretty (StatusCode resp) +:+ ": " +:+ Body resp)))
          else
            match json_scan (Body resp) with
            | inl err => (args, inl err)
            | inr j =>
                match Decode_response j with
                | inl err => (args, inl err)
                | inr convexResponse =>
                    if String.eqb (Status convexResponse) "success" then
                      (args, inr (Value convexResponse))
                    else if String.eqb (Status convexResponse) "error" then
                      (args, inl (Errorf ("error from Convex: " +:+ ErrorMessage convexResponse)))
                    else
                      (args, inl (Errorf ("unexpected response from Convex: " +:+ Sprint_reader resp)))
                end
            end
      end
  end.

(** The Link built from a decoded document, in [LoadAll] and [Load]. *)
Definition link_of_doc (doc : LinkDocument) : Link :=
  {| Short := doc_Short doc;
     Long := doc_Long doc;
     Created := time_Unix (int64_of_float64 (doc_Created doc)) 0;
     LastEdit := time_Unix (int64_of_float64 (doc_LastEdit doc)) 0;
     Owner := doc_Owner doc |}.

Definition LoadAll (c : ConvexDB) : error + list Link :=
  let args := {| Path := "load:loadAll"; Args := ∅; Format := "json" |} in
  match (query c args).2 with
  | inl err => inl err
  | inr resp =>
      match Decode_docs resp with
      | inl err => inl err
      | inr docs => inr (link_of_doc <$> docs)
      end
  end.

Definition Load (c : ConvexDB) (short : string) : error + Link :=
  let args := {| Path := "load:loadOne";
                 Args := {[ "normalizedId"%string := ArgString (linkID short) ]};
                 Format := "json" |} in
  match (query c args).2 with
  | inl err => inl err
  | inr resp =>
      match Decode_doc_ptr resp with
      | inl err => inl err
      | inr None => inl ErrNotExist
      | inr (Some doc) => inr (link_of_doc doc)
      end
  end.

(** The document that [Save] sends. *)
Definition doc_of_link (link : Link) : LinkDocument :=
  {| doc_Id := linkID (Short link);
     doc_Short := Short link;
     doc_Long := Long link;
     doc_Created := float64_of_Z (Time_Unix (Created link));
     doc_LastEdit := float64_of_Z (Time_Unix (LastEdit link));
     doc_Owner := Owner link |}.

Definition Save (c : ConvexDB) (link : Link) : option error :=
  let document := doc_of_link link in
  let args := {| Path := "store";
                 Args := {[ "link"%string := ArgLink document ]};
                 Format := "json" |} in
  (mutation c args).2.

(** [mungedStats[linkID(id)] = clicks] for every entry, in the order in
    which Go ranges over the map. *)
Definition munge (stats : ClickStats) : gmap string Z :=
  foldl (λ mungedStats kv, <[linkID kv.1 := kv.2]> mungedStats) ∅ (map_to_list stats).

Definition SaveStats (c : ConvexDB) (stats : ClickStats) : option error :=
  let args := {| Path := "stats:saveStats";
                 Args := {[ "stats"%string := ArgStats (munge stats) ]};
                 Format := "json" |} in
  (mutation c args).2.

(** Go ranges over [stats] in an order of its choosing; [map_to_list]
    stands for that order. *)
Definition LoadStats (c : ConvexDB) : outcome (error + ClickStats) :=
  let args := {| Path := "stats:loadStats"; Args := ∅; Format := "json" |} in
  match (query c args).2 with
  | inl err => Returns (inl err)
  | inr response =>
      match Decode_StatsMap response with
      | inl err => Returns (inl err)
      | inr stats => collect_clicks (map_to_list stats) ∅
      end
  end.

End Client.

End Convex.

(** * Histories of the local store *)

(** The calls that change the local store, with a healthy engine: every
    statement runs, [INSERT OR REPLACE] reports one affected row. *)
Inductive call : Type :=
| CallSave (link : Link)
| CallSaveStats (stats : ClickStats) (now : Z).

Section Histories.

Variable linkID : string → string.

Definition apply_call (s : SQLite.SQLiteDB) (c : call) : SQLite.SQLiteDB :=
  match c with
  | CallSave link => (SQLite.Save linkID s (SQLite.ExecDone (inr 1)) link).1
  | CallSaveStats stats now => (SQLite.SaveStats linkID s SQLite.no_faults stats now).1
  end.

(** The store after a history of calls on a new database. *)
Definition run (calls : list call) : SQLite.SQLiteDB :=
  foldl apply_call SQLite.empty_db calls.

(** The deltas of one [SaveStats] argument whose names normalise to [id]. *)
Definition deltas_of (id : string) (stats : ClickStats) : list Z :=
  snd <$> filter (λ kv, linkID kv.1 = id) (map_to_list stats).

(** All deltas ever passed to [SaveStats] under a name that normalises
    to [id]. *)
Definition saved_deltas (id : string) (calls : list call) : list Z :=
  calls ≫= λ c, match c with
                | CallSave _ => []
                | CallSaveStats stats _ => deltas_of id stats
                end.

(** All deltas ever passed to [SaveStats] under the very name [short]. *)
Definition named_deltas (short : string) (calls : list call) : list Z :=
  calls ≫= λ c, match c with
                | CallSave _ => []
                | CallSaveStats stats _ => option_list (stats !! short)
                end.

(** Counts are not negative. *)
Definition counts_nonneg (calls : list call) : Prop :=
  Forall (λ c, match c with
               | CallSave _ => True
               | CallSaveStats stats _ => map_Forall (λ _ v, 0 ≤ v) stats
               end) calls.

(** The ledger row that [SaveStats] writes for one entry of its argument. *)
Definition row_of_delta (now : Z) (kv : string * Z) : SQLite.StatsRow :=
  {| SQLite.stat_ID := linkID kv.1; SQLite.stat_Created := now; SQLite.stat_Clicks := kv.2 |}.

(** What the schema and [Save] maintain on the Links table: the primary
    key is unique and is the normalised short name of its row. *)
Definition consistent (s : SQLite.SQLiteDB) : Prop :=
  NoDup (SQLite.row_ID <$> SQLite.Links s) ∧
  Forall (λ r, SQLite.row_ID r = linkID (SQLite.row_Short r)) (SQLite.Links s).

End Histories.

Definition total (xs : list Z) : Z := foldr Z.add 0 xs.

(** * Exchanges with the remote service *)

Section Exchanges.

Variable json_Marshal : Convex.UdfExecution → error + string.
Variable http_Post : string → string → string → error + Convex.Response.

(** The request [args], sent by client [c] to the endpoint [path], is
    answered with the HTTP response [resp]. *)
Definition answered (path : string) (c : Convex.ConvexDB) (args : Convex.UdfExecution)
    (resp : Convex.Response) : Prop :=
  ∃ encodedArgs,
    json_Marshal (Convex.with_token c args) = inr encodedArgs ∧
    http_Post (Convex.url c +:+ path) "application/json" encodedArgs = inr resp.

End Exchanges.

(** The envelope [{"status":"error","errorMessage":m}]. *)
Definition error_envelope (m : string) : Convex.json :=
  Convex.JObj [("status"%string, Convex.JStr "error"); ("errorMessage"%string, Convex.JStr m)].

(** The envelope [{"status":"success","value":v}]. *)
Definition success_envelope (v : Convex.json) : Convex.json :=
  Convex.JObj [("status"%string, Convex.JStr "success"); ("value"%string, v)].

(** A Link as the remote service holds it, timestamps in epoch seconds. *)
Record WireLink : Type := mkWire {
  w_Id : string;
  w_Short : string;
  w_Long : string;
  w_Created : Z;
  w_LastEdit : Z;
  w_Owner : string
}.

(** The Link document that the server sends for it. *)
Definition link_document (w : WireLink) : Convex.json :=
  Convex.JObj [("normalizedId"%string, Convex.JStr (w_Id w));
               ("short"%string, Convex.JStr (w_Short w));
               ("long"%string, Convex.JStr (w_Long w));
               ("created"%string, Convex.JNum (w_Created w));
               ("lastEdit"%string, Convex.JNum (w_LastEdit w));
               ("owner"%string, Convex.JStr (w_Owner w))].

(** The Link with exactly the fields and the epoch seconds of [w]. *)
Definition link_of_wire (w : WireLink) : Link :=
  {| Short := w_Short w;
     Long := w_Long w;
     Created := time_Unix (w_Created w) 0;
     LastEdit := time_Unix (w_LastEdit w) 0;
     Owner := w_Owner w |}.

(** The whole numbers up to 2^53 in magnitude: all of them are binary64
    values. *)
Definition within_2_53 (z : Z) : Prop := - 2 ^ 53 ≤ z ≤ 2 ^ 53.

(** The application error of the remote service carrying message [m]. *)
Definition application_error (m : string) : error :=
  Errorf ("error from Convex: " +:+ m).

Definition is_application_error (e : error) : Prop :=
  ∃ m, e = application_error m.

(** The request of [Load]. *)
Definition loadOne_args (linkID : string → string) (short : string) : Convex.UdfExecution :=
  {| Convex.Path := "load:loadOne";
     Convex.Args := {[ "normalizedId"%string := Convex.ArgString (linkID short) ]};
     Convex.Format := "json" |}.

(** The request of [LoadAll]. *)
Definition loadAll_args : Convex.UdfExecution :=
  {| Convex.Path := "load:loadAll"; Convex.Args := ∅; Convex.Format := "json" |}.

(** The rows of [SELECT ID, sum(Clicks) ... GROUP BY ID] when no sum
    overflows. *)
Definition group_rows (t : list SQLite.StatsRow) : list (string * Z) :=
  (λ id, (id, total (SQLite.clicks_of_id id t))) <$> remove_dups (SQLite.stat_ID <$> t).

(** No other name that was passed to [SaveStats] normalises to the
    identifier of [short]. *)
Definition no_alias (linkID : string → string) (short : string) (calls : list call) : Prop :=
  Forall (λ c, match c with
               | CallSave _ => True
               | CallSaveStats stats _ =>
                   ∀ k v, stats !! k = Some v → linkID k = linkID short → k = short
               end) calls.

(** * Sample values and test doubles *)

Definition sample_time : Time :=
  {| unix_sec := 1700000000; nsec := 123456789; loc := Local |}.

Definition sample_link (short long : string) : Link :=
  {| Short := short; Long := long; Created := sample_time; LastEdit := sample_time;
     Owner := "alice" |}.

Definition sample_client : Convex.ConvexDB :=
  Convex.NewConvexDB "https://example.convex.cloud" "secret".

(** An encoder that never fails; the bytes are of no concern. *)
Definition stub_Marshal (args : Convex.UdfExecution) : error + string :=
  inr (Convex.Path args).

(** A server that answers every request with [resp]. *)
Definition stub_Post (resp : Convex.Response) (url contentType body : string)
    : error + Convex.Response :=
  inr resp.

(** A scanner that reads the JSON value [j] from every body. *)
Definition stub_scan (j : Convex.json) (body : string) : error + Convex.json :=
  inr j.

Definition stub_Sprint (resp : Convex.Response) : string := "&{}".

(** A response with status 200. *)
Definition ok_response : Convex.Response :=
  {| Convex.StatusCode := 200; Convex.Body := "{...}" |}.

(** Link "foo" is saved, then three and two clicks are flushed for it. *)
Definition sample_history : list call :=
  [CallSave (sample_link "foo" "http://example.com");
   CallSaveStats {[ "foo"%string := 3 ]} 1700000001;
   CallSaveStats {[ "foo"%string := 2 ]} 1700000002].

(** The same flushes with no Link saved. *)
Definition orphan_history : list call :=
  [CallSaveStats {[ "foo"%string := 3 ]} 1700000001;
   CallSaveStats {[ "foo"%string := 2 ]} 1700000002].

(** Link "foo" is saved; clicks are flushed under "Foo" and under "foo". *)
Definition alias_history : list call :=
  [CallSave (sample_link "foo" "http://example.com");
   CallSaveStats {[ "Foo"%string := 3 ]} 1700000001;
   CallSaveStats {[ "foo"%string := 2 ]} 1700000002].

(** A Link of the remote service whose timestamps are 2^53 + 1. *)
Definition far_future : WireLink :=
  {| w_Id := "foo"; w_Short := "foo"; w_Long := "http://example.com";
     w_Created := 9007199254740993; w_LastEdit := 9007199254740993; w_Owner := "alice" |}.

Definition sample_wire : WireLink :=
  {| w_Id := "foo"; w_Short := "foo"; w_Long := "http://example.com";
     w_Created := 1700000000; w_LastEdit := 1700000500; w_Owner := "alice" |}.

(** The Link as the local store returns it: the timestamps cut to whole
    seconds and placed in UTC. *)
Definition as_stored (l : Link) : Link :=
  {| Short := Short l;
     Long := Long l;
     Created := Time_UTC (Time_Truncate_Second (Created l));
     LastEdit := Time_UTC (Time_Truncate_Second (LastEdit l));
     Owner := Owner l |}.

(** The Link as the remote store returns what it was sent: the
    timestamps cut to whole seconds, in the local zone. *)
Definition as_sent (l : Link) : Link :=
  {| Short := Short l;
     Long := Long l;
     Created := time_Unix (Time_Unix (Created l)) 0;
     LastEdit := time_Unix (Time_Unix (LastEdit l)) 0;
     Owner := Owner l |}.

(** The requests of [Save], [SaveStats] and [LoadStats]. *)
Definition store_args (linkID : string → string) (link : Link) : Convex.UdfExecution :=
  {| Convex.Path := "store";
     Convex.Args := {[ "link"%string := Convex.ArgLink (Convex.doc_of_link linkID link) ]};
     Convex.Format := "json" |}.

Definition saveStats_args (linkID : string → string) (stats : ClickStats)
    : Convex.UdfExecution :=
  {| Convex.Path := "stats:saveStats";
     Convex.Args := {[ "stats"%string := Convex.ArgStats (Convex.munge linkID stats) ]};
     Convex.Format := "json" |}.

Definition loadStats_args : Convex.UdfExecution :=
  {| Convex.Path := "stats:loadStats"; Convex.Args := ∅; Convex.Format := "json" |}.

(** The object of click totals that the server sends for [members]. *)
Definition stats_document (members : list (string * Z)) : Convex.json :=
  Convex.JObj (prod_map id Convex.JNum <$> members).

(** The transport fails with [err] whatever is posted. *)
Definition failing_Post (err : error) (url contentType body : string)
    : error + Convex.Response :=
  inl err.

(** * Facts about the SQL statements *)

Lemma filter_nil_iff {A} (P : A → Prop) `{!∀ x, Decision (P x)} (l : list A) :
  filter P l = [] ↔ ∀ x, x ∈ l → ¬ P x.
Proof.
  split.
  - intros Hnil x Hx HP. by eapply filter_nil_not_elem_of.
  - induction l as [|y l IH]; intros Hall; [done|].
    rewrite filter_cons_False by (apply Hall; left).
    apply IH. intros x Hx. apply Hall. by right.
Qed.

Section TableFacts.

Implicit Types (r : SQLite.LinkRow) (t : list SQLite.LinkRow) (id : string).

Lemma filter_key_insert_or_replace r t :
  filter (λ x, SQLite.row_ID x = SQLite.row_ID r) (SQLite.insert_or_replace r t) = [r].
Proof.
  unfold SQLite.insert_or_replace.
  rewrite filter_app, list_filter_filter.
  rewrite (proj2 (filter_nil_iff _ _)) by (intros x _ [? ?]; done).
  by rewrite filter_cons_True, filter_nil.
Qed.

Lemma filter_other_insert_or_replace r t :
  filter (λ x, SQLite.row_ID x ≠ SQLite.row_ID r) (SQLite.insert_or_replace r t)
  = filter (λ x, SQLite.row_ID x ≠ SQLite.row_ID r) t.
Proof.
  unfold SQLite.insert_or_replace.
  rewrite filter_app, list_filter_filter.
  rewrite filter_cons_False, filter_nil by (intros Hne; by apply Hne).
  rewrite app_nil_r. apply list_filter_iff.
  intros x. split; [by intros [? _] | by intros ?; split].
Qed.

Lemma select_insert_or_replace r t :
  SQLite.select_link_where_id (SQLite.row_ID r) (SQLite.insert_or_replace r t) = Some r.
Proof.
  unfold SQLite.select_link_where_id. by rewrite filter_key_insert_or_replace.
Qed.

Lemma insert_or_replace_same_key r1 r2 t :
  SQLite.row_ID r1 = SQLite.row_ID r2 →
  SQLite.insert_or_replace r2 (SQLite.insert_or_replace r1 t) = SQLite.insert_or_replace r2 t.
Proof.
  intros Hk. unfold SQLite.insert_or_replace at 1. rewrite <- Hk.
  rewrite filter_other_insert_or_replace. unfold SQLite.insert_or_replace.
  by rewrite Hk.
Qed.

Lemma select_None_iff id t :
  SQLite.select_link_where_id id t = None ↔ ∀ r, r ∈ t → SQLite.row_ID r ≠ id.
Proof.
  unfold SQLite.select_link_where_id. rewrite head_None.
  rewrite filter_nil_iff. naive_solver.
Qed.

Lemma insert_or_replace_new r t :
  (∀ x, x ∈ t → SQLite.row_ID x ≠ SQLite.row_ID r) →
  SQLite.insert_or_replace r t = t ++ [r].
Proof.
  intros Hnew. unfold SQLite.insert_or_replace. f_equal.
  induction t as [|x t IH]; [done|].
  rewrite filter_cons_True by (apply Hnew; left).
  f_equal. apply IH. intros y Hy. apply Hnew. by right.
Qed.

Lemma NoDup_insert_or_replace r t :
  NoDup (SQLite.row_ID <$> t) → NoDup (SQLite.row_ID <$> SQLite.insert_or_replace r t).
Proof.
  intros Hnd. unfold SQLite.insert_or_replace. rewrite fmap_app.
  apply NoDup_app. split_and!.
  - eapply sublist_NoDup; [exact Hnd|]. apply fmap_sublist, sublist_filter.
  - intros id Hin Hr. apply list_elem_of_fmap in Hin as (x & -> & Hx).
    apply list_elem_of_filter in Hx as [Hne _].
    apply list_elem_of_singleton in Hr. done.
  - apply NoDup_singleton.
Qed.

End TableFacts.

(** * The local store: Load, Save, SaveStats *)

Section LocalStore.

Variable linkID : string → string.

Implicit Types (s : SQLite.SQLiteDB) (l : Link) (short : string).

Lemma time_Unix_whole (sec : Z) :
  time_Unix sec 0 = {| unix_sec := sec; nsec := 0; loc := Local |}.
Proof. unfold time_Unix. f_equal. apply Z.add_0_r. Qed.

Lemma link_of_row_of_link l :
  SQLite.link_of_row (SQLite.row_of_link linkID l)
  = {| Short := Short l; Long := Long l;
       Created := Time_UTC (Time_Truncate_Second (Created l));
       LastEdit := Time_UTC (Time_Truncate_Second (LastEdit l));
       Owner := Owner l |}.
Proof.
  unfold SQLite.link_of_row, SQLite.row_of_link; cbn [SQLite.row_Short SQLite.row_Long
    SQLite.row_Created SQLite.row_LastEdit SQLite.row_Owner].
  by rewrite !time_Unix_whole.
Qed.

(** With a healthy engine [Save] is the upsert and reports no error. *)
Lemma Save_healthy s l :
  SQLite.Save linkID s (SQLite.ExecDone (inr 1)) l
  = ({| SQLite.Links := SQLite.insert_or_replace (SQLite.row_of_link linkID l) (SQLite.Links s);
        SQLite.Stats := SQLite.Stats s |}, None).
Proof. reflexivity. Qed.

(** [Save] reports no error only when the engine reported one affected row. *)
Lemma Save_success_inv s o l :
  (SQLite.Save linkID s o l).2 = None → o = SQLite.ExecDone (inr 1).
Proof.
  destruct o as [err|[err|rows]]; cbn; try discriminate.
  case_bool_decide as Hrows; [discriminate|].
  intros _. do 2 f_equal. destruct (decide (rows = 1)); [done|]. by destruct Hrows.
Qed.

(** Looking up a short name that has no row: the local store answers
    with fs.ErrNotExist. *)
Lemma SQLite_Load_absent s short :
  (∀ r, r ∈ SQLite.Links s → SQLite.row_ID r ≠ linkID short) →
  SQLite.Load linkID s None short = inl ErrNotExist.
Proof.
  intros Habs. unfold SQLite.Load, SQLite.QueryRow_Scan.
  by rewrite (proj2 (select_None_iff _ _) Habs).
Qed.

Lemma SQLite_Load_present s short r :
  SQLite.select_link_where_id (linkID short) (SQLite.Links s) = Some r →
  SQLite.Load linkID s None short = inr (SQLite.link_of_row r).
Proof. intros Hsel. unfold SQLite.Load, SQLite.QueryRow_Scan. by rewrite Hsel. Qed.

(** ** The transaction of SaveStats *)

Lemma exec_all_spec (faults : nat → option error) (now : Z) entries :
  ∀ (i : nat) (tx : SQLite.Tx),
  match SQLite.exec_all linkID faults i now entries tx with
  | inl (s', err) =>
      s' = SQLite.tx_db tx ∧
      ∃ j, (j < length entries)%nat ∧ faults (i + j)%nat = Some err
  | inr tx' =>
      SQLite.tx_db tx' = SQLite.tx_db tx ∧
      SQLite.tx_rows tx' = SQLite.tx_rows tx ++ (row_of_delta linkID now <$> entries) ∧
      ∀ j, (j < length entries)%nat → faults (i + j)%nat = None
  end.
Proof.
  induction entries as [|[short clicks] rest IH]; intros i tx; cbn [SQLite.exec_all].
  - split_and!; [done|by rewrite app_nil_r|]. cbn. lia.
  - destruct (faults i) as [err|] eqn:Hi.
    + split; [done|]. exists 0%nat. cbn. split; [lia|]. by rewrite Nat.add_0_r.
    + specialize (IH (S i) (SQLite.tx_Exec tx (row_of_delta linkID now (short, clicks)))).
      change {| SQLite.stat_ID := linkID short; SQLite.stat_Created := now;
                SQLite.stat_Clicks := clicks |}
        with (row_of_delta linkID now (short, clicks)).
      destruct (SQLite.exec_all _ _ _ _ _ _) as [[s' err]|tx'].
      * destruct IH as [-> (j & Hj & Hf)]. split; [done|].
        exists (S j). cbn. split; [lia|]. by rewrite <- Nat.add_succ_comm.
      * destruct IH as (Hdb & Hrows & Hnone). split_and!; [done| |].
        -- rewrite Hrows. cbn. by rewrite <- app_assoc.
        -- intros [|j] Hj; [by rewrite Nat.add_0_r|].
           rewrite <- Nat.add_succ_comm. apply Hnone. cbn in Hj. lia.
Qed.

(** With a healthy engine [SaveStats] appends one ledger row per entry. *)
Lemma SaveStats_healthy s (stats : ClickStats) now :
  SQLite.SaveStats linkID s SQLite.no_faults stats now
  = ({| SQLite.Links := SQLite.Links s;
        SQLite.Stats := SQLite.Stats s ++ (row_of_delta linkID now <$> map_to_list stats) |}, None).
Proof.
  unfold SQLite.SaveStats. cbn [SQLite.begin_fault SQLite.exec_fault SQLite.commit_fault SQLite.no_faults].
  pose proof (exec_all_spec (λ _, None) now (map_to_list stats) 0%nat (SQLite.BeginTx s)) as Hx.
  destruct (SQLite.exec_all _ _ _ _ _ _) as [[s' err]|tx'].
  - destruct Hx as [_ (j & _ & Hj)]. discriminate.
  - destruct Hx as (Hdb & Hrows & _). unfold SQLite.Commit. rewrite Hdb, Hrows. done.
Qed.

End LocalStore.

(** * The ledger and its totals *)

Lemma total_app (xs ys : list Z) : total (xs ++ ys) = total xs + total ys.
Proof. unfold total. induction xs as [|x xs IH]; cbn; lia. Qed.

Lemma total_nonneg (xs : list Z) : Forall (λ x, 0 ≤ x) xs → 0 ≤ total xs.
Proof. unfold total. induction 1; cbn; lia. Qed.

(** Counts that are not negative and whose total fits 64 bits are summed
    without overflow. *)
Lemma sum_int64_nonneg (xs : list Z) :
  ∀ acc, 0 ≤ acc → Forall (λ x, 0 ≤ x) xs → acc + total xs ≤ int64_max →
         SQLite.sum_int64 acc xs = Some (acc + total xs).
Proof.
  induction xs as [|x xs IH]; intros acc Hacc Hpos Hmax; cbn.
  - f_equal. lia.
  - inversion Hpos as [|? ? Hx Hxs]; subst.
    pose proof (total_nonneg xs Hxs) as Hrest.
    change (foldr Z.add 0 xs) with (total xs) in *. cbn in Hmax.
    change (foldr Z.add 0 xs) with (total xs) in Hmax.
    assert (His : is_int64 (acc + x) = true).
    { unfold is_int64, int64_min, int64_max in *.
      apply andb_true_intro. split; apply Z.leb_le; lia. }
    rewrite His, IH by (done || lia). f_equal. lia.
Qed.

Lemma NoDup_fmap_agree {A B} (f : A → B) (l : list A) (x y : A) :
  NoDup (f <$> l) → x ∈ l → y ∈ l → f x = f y → x = y.
Proof.
  induction l as [|z l IH]; [by intros _ ?%elem_of_nil|].
  rewrite fmap_cons, NoDup_cons. intros [Hz Hnd] Hx Hy Hf.
  apply elem_of_cons in Hx as [->|Hx]; apply elem_of_cons in Hy as [->|Hy]; auto.
  - destruct Hz. rewrite Hf. by apply list_elem_of_fmap_2.
  - destruct Hz. rewrite <- Hf. by apply list_elem_of_fmap_2.
Qed.

Section LedgerFacts.

Variable linkID : string → string.

Implicit Types (s : SQLite.SQLiteDB) (id short n : string) (calls : list call).

Lemma clicks_of_id_app id (t1 t2 : list SQLite.StatsRow) :
  SQLite.clicks_of_id id (t1 ++ t2) = SQLite.clicks_of_id id t1 ++ SQLite.clicks_of_id id t2.
Proof. unfold SQLite.clicks_of_id. by rewrite filter_app, fmap_app. Qed.

Lemma clicks_of_id_rows id now (entries : list (string * Z)) :
  SQLite.clicks_of_id id (row_of_delta linkID now <$> entries)
  = snd <$> filter (λ kv, linkID kv.1 = id) entries.
Proof.
  unfold SQLite.clicks_of_id.
  induction entries as [|kv entries IH]; [done|].
  rewrite fmap_cons. destruct (decide (linkID kv.1 = id)) as [Heq|Hne].
  - rewrite !filter_cons_True by done. rewrite !fmap_cons. by rewrite IH.
  - rewrite !filter_cons_False by done. done.
Qed.

(** The ledger holds, for every identifier, exactly the deltas saved
    under the names that normalise to it, in the order of the calls. *)
Lemma ledger_of_history id calls :
  ∀ s, SQLite.clicks_of_id id (SQLite.Stats (foldl (apply_call linkID) s calls))
       = SQLite.clicks_of_id id (SQLite.Stats s) ++ saved_deltas linkID id calls.
Proof.
  induction calls as [|c calls IH]; intros s; cbn [foldl].
  - by rewrite app_nil_r.
  - rewrite IH. destruct c as [link|stats now]; cbn [apply_call].
    + by rewrite Save_healthy.
    + rewrite SaveStats_healthy. cbn [fst SQLite.Stats].
      rewrite clicks_of_id_app, clicks_of_id_rows, <- app_assoc. done.
Qed.

Lemma Links_of_SaveStats s (stats : ClickStats) now :
  SQLite.Links (apply_call linkID s (CallSaveStats stats now)) = SQLite.Links s.
Proof. cbn [apply_call]. by rewrite SaveStats_healthy. Qed.

Lemma consistent_empty : consistent linkID SQLite.empty_db.
Proof. split; cbn; [apply NoDup_nil_2 | apply Forall_nil_2]. Qed.

Lemma consistent_apply_call s (c : call) :
  consistent linkID s → consistent linkID (apply_call linkID s c).
Proof.
  intros [Hnd Hid]. destruct c as [link|stats now].
  - cbn [apply_call]. rewrite Save_healthy. split; cbn [fst SQLite.Links].
    + by apply NoDup_insert_or_replace.
    + unfold SQLite.insert_or_replace. apply Forall_app. split.
      * apply Forall_forall. intros r [_ Hr]%list_elem_of_filter.
        by apply (proj1 (Forall_forall _ _) Hid).
      * by apply Forall_singleton.
  - unfold consistent. by rewrite Links_of_SaveStats.
Qed.

Lemma consistent_run calls : consistent linkID (run linkID calls).
Proof.
  unfold run. generalize consistent_empty. generalize SQLite.empty_db.
  induction calls as [|c calls IH]; intros s Hs; cbn [foldl]; [done|].
  by apply IH, consistent_apply_call.
Qed.

Lemma saved_deltas_nonneg id calls :
  counts_nonneg calls → Forall (λ x, 0 ≤ x) (saved_deltas linkID id calls).
Proof.
  intros Hpos. apply Forall_forall. intros x Hx.
  apply list_elem_of_bind in Hx as (c & Hx & Hc).
  pose proof (proj1 (Forall_forall _ _) Hpos c Hc) as Hcpos.
  destruct c as [link|stats now]; [by apply elem_of_nil in Hx|].
  unfold deltas_of in Hx. apply list_elem_of_fmap in Hx as ([k v] & -> & Hkv).
  apply list_elem_of_filter in Hkv as [_ Hkv]. apply elem_of_map_to_list in Hkv.
  by apply (Hcpos k v).
Qed.

(** ** The reverse map of LoadStats *)

Lemma linkmap_sound (links : list Link) id n :
  ∀ m0 : gmap string string,
    foldl (λ m link, <[linkID (Short link) := Short link]> m) m0 links !! id = Some n →
    m0 !! id = Some n ∨ (id = linkID n ∧ ∃ l, l ∈ links ∧ Short l = n).
Proof.
  induction links as [|x links IH]; intros m0 Hm; cbn [foldl] in Hm; [by left|].
  apply IH in Hm as [Hm|(-> & l & Hl & <-)].
  - destruct (decide (linkID (Short x) = id)) as [<-|Hne].
    + rewrite lookup_insert_eq in Hm. injection Hm as <-.
      right. split; [done|]. exists x. split; [left|done].
    + rewrite lookup_insert_ne in Hm by done. by left.
  - right. split; [done|]. exists l. split; [by right|done].
Qed.

Lemma linkmap_complete (links : list Link) id n :
  ∀ m0 : gmap string string,
    (m0 !! id = Some n ∨ ∃ l, l ∈ links ∧ Short l = n ∧ linkID n = id) →
    (∀ l', l' ∈ links → linkID (Short l') = id → Short l' = n) →
    foldl (λ m link, <[linkID (Short link) := Short link]> m) m0 links !! id = Some n.
Proof.
  induction links as [|x links IH]; intros m0 Hin Hagree; cbn [foldl].
  - destruct Hin as [Hm|(l & Hl & _)]; [done|by apply elem_of_nil in Hl].
  - apply IH.
    + destruct (decide (linkID (Short x) = id)) as [Hx|Hx].
      * left. rewrite <- Hx at 1. rewrite lookup_insert_eq. f_equal.
        apply Hagree; [left|done].
      * rewrite lookup_insert_ne by done.
        destruct Hin as [Hm|(l & Hl & Hn & Hid)]; [by left|].
        right. exists l. split_and!; [|done|done].
        apply elem_of_cons in Hl as [->|Hl]; [|done]. congruence.
    + intros l' Hl'. apply Hagree. by right.
Qed.

(** On a consistent table the reverse map sends the key of every row to
    the display name of that row. *)
Lemma linkmap_of_row s (r : SQLite.LinkRow) :
  consistent linkID s → r ∈ SQLite.Links s →
  SQLite.linkmap_of linkID (SQLite.link_of_row <$> SQLite.Links s) !! linkID (SQLite.row_Short r)
  = Some (SQLite.row_Short r).
Proof.
  intros [Hnd Hid] Hr. unfold SQLite.linkmap_of.
  pose proof (proj1 (Forall_forall _ _) Hid) as Hkey.
  apply linkmap_complete.
  - right. exists (SQLite.link_of_row r). split_and!; [|done|done].
    by apply list_elem_of_fmap_2.
  - intros l' Hl' Heq. apply list_elem_of_fmap in Hl' as (r' & -> & Hr').
    cbn in Heq |- *. f_equal.
    apply (NoDup_fmap_agree SQLite.row_ID (SQLite.Links s)); [done..|].
    rewrite (Hkey r' Hr'), (Hkey r Hr). done.
Qed.

(** ** The loop over the grouped rows *)

Lemma fold_no_write (lm : gmap string string) (rows : list (string * Z)) n :
  ∀ m0 : ClickStats,
    (∀ row, row ∈ rows → default ""%string (lm !! row.1) ≠ n) →
    foldl (SQLite.record_group lm) m0 rows !! n = m0 !! n.
Proof.
  induction rows as [|row rows IH]; intros m0 Hrows; cbn [foldl]; [done|].
  rewrite IH by (intros row' Hrow'; apply Hrows; by right).
  unfold SQLite.record_group. apply lookup_insert_ne. apply Hrows. left.
Qed.

Lemma fold_write (lm : gmap string string) (rows : list (string * Z)) n (t : Z) :
  ∀ m0 : ClickStats,
    n ≠ ""%string →
    (∀ id, lm !! id = Some n → id = linkID n) →
    lm !! linkID n = Some n →
    NoDup rows.*1 → (linkID n, t) ∈ rows →
    foldl (SQLite.record_group lm) m0 rows !! n = Some t.
Proof.
  intros m0 Hn Hinj Hlm Hnd Hin.
  apply list_elem_of_split in Hin as (pre & post & ->).
  rewrite foldl_app. cbn [foldl].
  rewrite fmap_app, fmap_cons in Hnd.
  apply NoDup_app in Hnd as (_ & _ & Hnd). apply NoDup_cons in Hnd as [Hfresh _].
  cbn [fst] in Hfresh.
  rewrite fold_no_write.
  - unfold SQLite.record_group. cbn [fst snd]. rewrite Hlm. cbn. apply lookup_insert_eq.
  - intros row Hrow Hshort. destruct (lm !! row.1) as [n'|] eqn:Hrow1; cbn in Hshort.
    + subst n'. apply Hinj in Hrow1. apply Hfresh. rewrite <- Hrow1.
      by apply list_elem_of_fmap_2.
    + by apply Hn.
Qed.

(** ** The grouped totals *)

Lemma mapM_total {A B} (f : A → option B) (g : A → B) (l : list A) :
  (∀ x, x ∈ l → f x = Some (g x)) → mapM f l = Some (g <$> l).
Proof.
  intros Hf. apply mapM_Some. induction l as [|x l IH]; [constructor|].
  rewrite fmap_cons. constructor; [apply Hf; left|].
  apply IH. intros y Hy. apply Hf. by right.
Qed.

Lemma select_sum_total (t : list SQLite.StatsRow) :
  (∀ id, SQLite.sum_int64 0 (SQLite.clicks_of_id id t) = Some (total (SQLite.clicks_of_id id t))) →
  SQLite.select_sum_clicks_group_by_id t
  = Some ((λ id, (id, total (SQLite.clicks_of_id id t))) <$> remove_dups (SQLite.stat_ID <$> t)).
Proof.
  intros Hsum. unfold SQLite.select_sum_clicks_group_by_id.
  apply mapM_total. intros id _. by rewrite Hsum.
Qed.

Lemma clicks_of_absent_id id (t : list SQLite.StatsRow) :
  id ∉ SQLite.stat_ID <$> t → SQLite.clicks_of_id id t = [].
Proof.
  intros Hid. unfold SQLite.clicks_of_id.
  rewrite (proj2 (filter_nil_iff _ _)); [done|].
  intros r Hr Heq. apply Hid. rewrite <- Heq. by apply list_elem_of_fmap_2.
Qed.

End LedgerFacts.

(** * LoadStats on the local store *)

Section LoadStatsFacts.

Variable linkID : string → string.

Implicit Types (s : SQLite.SQLiteDB) (n : string) (calls : list call).

Lemma group_rows_keys (t : list SQLite.StatsRow) :
  (group_rows t).*1 = remove_dups (SQLite.stat_ID <$> t).
Proof.
  unfold group_rows. induction (remove_dups (SQLite.stat_ID <$> t)) as [|id ids IH]; [done|].
  rewrite !fmap_cons. cbn [fst]. by rewrite IH.
Qed.

Lemma LoadStats_healthy s :
  (∀ id, SQLite.sum_int64 0 (SQLite.clicks_of_id id (SQLite.Stats s))
         = Some (total (SQLite.clicks_of_id id (SQLite.Stats s)))) →
  SQLite.LoadStats linkID s None None
  = inr (foldl (SQLite.record_group (SQLite.linkmap_of linkID (SQLite.link_of_row <$> SQLite.Links s)))
               ∅ (group_rows (SQLite.Stats s))).
Proof.
  intros Hsum. unfold SQLite.LoadStats, SQLite.LoadAll.
  by rewrite (select_sum_total _ Hsum).
Qed.

(** A name other than the empty string that no stored Link displays has
    no entry in the result of LoadStats. *)
Lemma LoadStats_no_entry_without_link s io1 io2 (m : ClickStats) n :
  n ≠ ""%string →
  (∀ r, r ∈ SQLite.Links s → SQLite.row_Short r ≠ n) →
  SQLite.LoadStats linkID s io1 io2 = inr m → m !! n = None.
Proof.
  intros Hn Hnone. unfold SQLite.LoadStats, SQLite.LoadAll.
  destruct io1; [discriminate|]. destruct io2; [discriminate|].
  destruct (SQLite.select_sum_clicks_group_by_id _) as [rows|]; [|discriminate].
  intros [= <-]. rewrite fold_no_write; [apply lookup_empty|].
  intros row _. unfold SQLite.linkmap_of.
  destruct (foldl _ _ _ !! row.1) as [n'|] eqn:Hlm; cbn; [|done].
  intros ->. apply linkmap_sound in Hlm as [Hlm|(_ & l & Hl & Hs)].
  - by rewrite lookup_empty in Hlm.
  - apply list_elem_of_fmap in Hl as (r & -> & Hr). by apply (Hnone r).
Qed.

(** The total that LoadStats reports under the display name of a stored
    Link, after any history of calls on a new database. *)
Lemma LoadStats_of_history calls (r : SQLite.LinkRow) :
  counts_nonneg calls →
  (∀ id, total (saved_deltas linkID id calls) ≤ int64_max) →
  r ∈ SQLite.Links (run linkID calls) →
  SQLite.row_Short r ≠ ""%string →
  ∃ m : ClickStats,
    SQLite.LoadStats linkID (run linkID calls) None None = inr m ∧
    clicks_at m (SQLite.row_Short r)
    = total (saved_deltas linkID (linkID (SQLite.row_Short r)) calls).
Proof.
  intros Hpos Hmax Hr Hn.
  pose proof (consistent_run linkID calls) as Hcons.
  assert (Hledger : ∀ id, SQLite.clicks_of_id id (SQLite.Stats (run linkID calls))
                          = saved_deltas linkID id calls).
  { intros id. unfold run. by rewrite ledger_of_history. }
  assert (Hsum : ∀ id, SQLite.sum_int64 0 (SQLite.clicks_of_id id (SQLite.Stats (run linkID calls)))
                       = Some (total (SQLite.clicks_of_id id (SQLite.Stats (run linkID calls))))).
  { intros id. rewrite Hledger.
    rewrite sum_int64_nonneg; [done|done|by apply saved_deltas_nonneg|]. apply Hmax. }
  eexists. split; [by apply LoadStats_healthy|].
  set (lm := SQLite.linkmap_of linkID _).
  assert (Hinj : ∀ id, lm !! id = Some (SQLite.row_Short r) → id = linkID (SQLite.row_Short r)).
  { intros id Hid. apply linkmap_sound in Hid as [Hid|[-> _]]; [|done].
    by rewrite lookup_empty in Hid. }
  unfold clicks_at.
  destruct (decide (linkID (SQLite.row_Short r)
                    ∈ remove_dups (SQLite.stat_ID <$> SQLite.Stats (run linkID calls)))) as [Hin|Hout].
  - rewrite (fold_write linkID lm _ _ (total (saved_deltas linkID (linkID (SQLite.row_Short r)) calls)));
      [done|done|done| |by rewrite group_rows_keys; apply NoDup_remove_dups|].
    + by apply linkmap_of_row.
    + unfold group_rows. apply list_elem_of_fmap. eexists. split; [|exact Hin].
      by rewrite Hledger.
  - rewrite fold_no_write.
    + rewrite lookup_empty. cbn. rewrite <- Hledger.
      rewrite clicks_of_absent_id; [done|]. by rewrite <- elem_of_remove_dups.
    + intros row Hrow Hshort. apply Hout. rewrite <- group_rows_keys.
      destruct (lm !! row.1) as [n'|] eqn:Hrow1; cbn in Hshort; [|done].
      subst n'. apply Hinj in Hrow1. rewrite <- Hrow1. by apply list_elem_of_fmap_2.
Qed.

End LoadStatsFacts.

(** * binary64 on whole numbers *)

Section Float64Facts.

Lemma digits2_pos_bounds (p : positive) :
  2 ^ (Z.pos (digits2_pos p) - 1) ≤ Z.pos p < 2 ^ Z.pos (digits2_pos p).
Proof.
  induction p as [p IH|p IH|]; cbn [digits2_pos]; [| |cbn; lia].
  all: rewrite Pos2Z.inj_succ, Z.pow_succ_r by lia.
  all: replace (Z.succ (Z.pos (digits2_pos p)) - 1)
         with (Z.succ (Z.pos (digits2_pos p) - 1)) by lia.
  all: rewrite Z.pow_succ_r by lia; lia.
Qed.

Lemma digits2_pos_iter_xO (p k : positive) :
  Z.pos (digits2_pos (Pos.iter xO p k)) = Z.pos (digits2_pos p) + Z.pos k.
Proof.
  induction k as [|k IH] using Pos.peano_ind; [cbn; lia|].
  rewrite Pos.iter_succ. cbn [digits2_pos]. lia.
Qed.

Lemma pos_iter_xO_value (p k : positive) :
  Z.pos (Pos.iter xO p k) = Z.pos p * 2 ^ Z.pos k.
Proof.
  induction k as [|k IH] using Pos.peano_ind; [cbn; lia|].
  rewrite Pos.iter_succ, Pos2Z.inj_xO, IH, Pos2Z.inj_succ, Z.pow_succ_r by lia. lia.
Qed.

(** A mantissa of 53 bits with an exponent in range is left alone by
    the rounding step. *)
Lemma binary_round_aux_aligned (sx : bool) (m : positive) (e : Z) :
  Z.pos (digits2_pos m) = 53 → -1074 ≤ e ≤ 971 →
  binary_round_aux 53 1024 sx (Z.pos m) e loc_Exact = S754_finite sx m e.
Proof.
  intros Hd He.
  assert (Hf : fexp 53 1024 (Z.pos (digits2_pos m) + e) - e = 0).
  { unfold fexp, emin. rewrite Hd. lia. }
  unfold binary_round_aux, shr_fexp. cbn [Zdigits2 shr_record_of_loc].
  rewrite Hf. cbn [shr shr_m loc_of_shr_record round_nearest_even Zdigits2 shr_record_of_loc].
  rewrite Hf. cbn [shr shr_m].
  destruct (Z.leb_spec e (1024 - 53)); [reflexivity | lia].
Qed.

(** Below 2^53 the conversion only shifts the digits to 53 bits. *)
Lemma binary_round_small (p : positive) (sx : bool) :
  Z.pos p < 2 ^ 53 →
  ∃ m e, binary_round 53 1024 sx p 0 = S754_finite sx m e ∧ -52 ≤ e ≤ 0 ∧
         Z.pos m = Z.pos p * 2 ^ (- e).
Proof.
  intros Hp.
  pose proof (digits2_pos_bounds p) as [Hlo _].
  assert (Hd : Z.pos (digits2_pos p) ≤ 53).
  { destruct (Z.le_gt_cases (Z.pos (digits2_pos p)) 53) as [|Hgt]; [done|].
    assert (2 ^ 53 ≤ 2 ^ (Z.pos (digits2_pos p) - 1)) by (apply Z.pow_le_mono_r; lia). lia. }
  unfold binary_round.
  assert (Hf : fexp 53 1024 (Z.pos (digits2_pos p) + 0) = Z.pos (digits2_pos p) - 53).
  { unfold fexp, emin. lia. }
  rewrite Hf. unfold shl_align.
  destruct (Z.pos (digits2_pos p) - 53 - 0) as [|q|q] eqn:Hq; try lia.
  - exists p, 0. rewrite binary_round_aux_aligned by lia. split; [done|]. cbn. lia.
  - exists (Pos.iter xO p q), (Z.pos (digits2_pos p) - 53).
    rewrite binary_round_aux_aligned.
    + split; [done|]. split; [lia|]. rewrite pos_iter_xO_value. f_equal. f_equal. lia.
    + rewrite digits2_pos_iter_xO. lia.
    + lia.
Qed.

Lemma finite_small_integer (sx : bool) (m p : positive) (e : Z) :
  -52 ≤ e ≤ 0 → Z.pos m = Z.pos p * 2 ^ (- e) → Z.pos p < 2 ^ 53 →
  Convex.int64_of_float64 (S754_finite sx m e) = (if sx then Z.neg p else Z.pos p) ∧
  Convex.float64_integer (S754_finite sx m e) = Some (if sx then Z.neg p else Z.pos p).
Proof.
  intros He Hm Hp. unfold Convex.int64_of_float64, Convex.float64_integer.
  assert (H63 : 2 ^ 53 < 2 ^ 63) by (apply Z.pow_lt_mono_r; lia).
  destruct (Z.leb_spec 0 e) as [He0|He0].
  - assert (e = 0) as -> by lia. cbn in Hm. rewrite Z.pow_0_r, Z.mul_1_r, Hm, Z.mul_1_r.
    unfold is_int64, int64_min, int64_max.
    destruct sx.
    + replace (- Z.pos p) with (Z.neg p) by lia.
      rewrite (proj2 (Z.leb_le _ _)), (proj2 (Z.leb_le _ _)) by lia. done.
    + rewrite (proj2 (Z.leb_le _ _)), (proj2 (Z.leb_le _ _)) by lia. done.
  - assert (Hpow : 2 ^ (- e) ≠ 0) by (apply Z.pow_nonzero; lia).
    rewrite Hm, Z.mod_mul, Z.div_mul by done. cbn [Z.eqb].
    unfold is_int64, int64_min, int64_max.
    destruct sx.
    + replace (- Z.pos p) with (Z.neg p) by lia.
      rewrite (proj2 (Z.leb_le _ _)), (proj2 (Z.leb_le _ _)) by lia. done.
    + rewrite (proj2 (Z.leb_le _ _)), (proj2 (Z.leb_le _ _)) by lia. done.
Qed.

(** A whole number of magnitude at most 2^53 is a binary64 value, and
    the conversions to and from float64 give it back. *)
Lemma float64_of_Z_exact (z : Z) :
  - 2 ^ 53 ≤ z ≤ 2 ^ 53 →
  Convex.is_finite (Convex.float64_of_Z z) = true ∧
  Convex.int64_of_float64 (Convex.float64_of_Z z) = z ∧
  Convex.float64_integer (Convex.float64_of_Z z) = Some z.
Proof.
  intros Hz.
  destruct (Z.eq_dec z (2 ^ 53)) as [->|]; [by vm_compute|].
  destruct (Z.eq_dec z (- 2 ^ 53)) as [->|]; [by vm_compute|].
  destruct z as [|p|p]; [done| |].
  - unfold Convex.float64_of_Z, binary_normalize.
    destruct (binary_round_small p false) as (m & e & -> & He & Hm); [lia|].
    split; [done|]. apply (finite_small_integer false m p e); lia.
  - unfold Convex.float64_of_Z, binary_normalize.
    destruct (binary_round_small p true) as (m & e & -> & He & Hm); [lia|].
    split; [done|]. apply (finite_small_integer true m p e); lia.
Qed.

End Float64Facts.

(** * Decoding the documents of the remote service *)

(** Comparisons of closed keys are evaluated. *)
Ltac eval_keys :=
  repeat match goal with
         | |- context [Convex.key_matches ?a ?b] =>
             let v := eval vm_compute in (Convex.key_matches a b) in
             change (Convex.key_matches a b) with v
         end.

Section DecodeFacts.

Lemma Decode_response_error (m : string) :
  Convex.Decode_response (error_envelope m)
  = inr {| Convex.Status := "error"; Convex.Value := None; Convex.ErrorMessage := m |}.
Proof. reflexivity. Qed.

Lemma Decode_response_success (v : Convex.json) :
  Convex.Decode_response (success_envelope v)
  = inr {| Convex.Status := "success"; Convex.Value := Some v; Convex.ErrorMessage := "" |}.
Proof. reflexivity. Qed.

(** The struct that a Link document decodes into, from any saved error
    state, when both timestamps are binary64 values. *)
Lemma decode_link_document (w : WireLink) (saved : option error) :
  Convex.is_finite (Convex.float64_of_Z (w_Created w)) = true →
  Convex.is_finite (Convex.float64_of_Z (w_LastEdit w)) = true →
  Convex.decode_doc_into (Convex.zero_LinkDocument, saved) (link_document w)
  = ({| Convex.doc_Id := w_Id w; Convex.doc_Short := w_Short w; Convex.doc_Long := w_Long w;
        Convex.doc_Created := Convex.float64_of_Z (w_Created w);
        Convex.doc_LastEdit := Convex.float64_of_Z (w_LastEdit w);
        Convex.doc_Owner := w_Owner w |}, saved).
Proof.
  intros Hc He. unfold link_document, Convex.decode_doc_into.
  cbn [foldl]. unfold Convex.set_doc_field, Convex.zero_LinkDocument.
  eval_keys. cbn -[Convex.float64_of_Z Convex.is_finite]. by rewrite Hc, He.
Qed.

Lemma link_of_decoded (w : WireLink) :
  within_2_53 (w_Created w) → within_2_53 (w_LastEdit w) →
  Convex.link_of_doc
    {| Convex.doc_Id := w_Id w; Convex.doc_Short := w_Short w; Convex.doc_Long := w_Long w;
       Convex.doc_Created := Convex.float64_of_Z (w_Created w);
       Convex.doc_LastEdit := Convex.float64_of_Z (w_LastEdit w);
       Convex.doc_Owner := w_Owner w |}
  = link_of_wire w.
Proof.
  intros (_ & Hc & _)%float64_of_Z_exact (_ & He & _)%float64_of_Z_exact.
  unfold Convex.link_of_doc, link_of_wire.
  cbn [Convex.doc_Short Convex.doc_Long Convex.doc_Created Convex.doc_LastEdit Convex.doc_Owner].
  by rewrite Hc, He.
Qed.

Lemma Decode_doc_ptr_document (w : WireLink) :
  within_2_53 (w_Created w) → within_2_53 (w_LastEdit w) →
  ∃ doc, Convex.Decode_doc_ptr (Some (link_document w)) = inr (Some doc) ∧
         Convex.link_of_doc doc = link_of_wire w.
Proof.
  intros Hc He. eexists. split; [|by apply link_of_decoded].
  unfold Convex.Decode_doc_ptr.
  change (match link_document w with Convex.JNull => ?a | _ => ?b end) with b.
  rewrite decode_link_document; [done|by apply float64_of_Z_exact..].
Qed.

Lemma Decode_docs_documents (ws : list WireLink) :
  Forall (λ w, within_2_53 (w_Created w) ∧ within_2_53 (w_LastEdit w)) ws →
  ∃ docs, Convex.Decode_docs (Some (Convex.JArr (link_document <$> ws))) = inr docs ∧
          Convex.link_of_doc <$> docs = link_of_wire <$> ws.
Proof.
  intros Hws. unfold Convex.Decode_docs.
  assert (Hfold : ∀ acc, ∃ docs,
            foldl Convex.append_doc (acc, None) (link_document <$> ws) = (acc ++ docs, None) ∧
            Convex.link_of_doc <$> docs = link_of_wire <$> ws).
  { induction Hws as [|w ws [Hc He] _ IH]; intros acc.
    - exists []. by rewrite app_nil_r.
    - rewrite fmap_cons. cbn [foldl]. unfold Convex.append_doc at 2. cbn [fst snd].
      rewrite decode_link_document by by apply float64_of_Z_exact.
      destruct (IH (acc ++ [ {| Convex.doc_Id := w_Id w; Convex.doc_Short := w_Short w;
                                Convex.doc_Long := w_Long w;
                                Convex.doc_Created := Convex.float64_of_Z (w_Created w);
                                Convex.doc_LastEdit := Convex.float64_of_Z (w_LastEdit w);
                                Convex.doc_Owner := w_Owner w |} ])) as (docs & -> & Hdocs).
      eexists (_ :: docs). split; [by rewrite <- app_assoc|].
      rewrite !fmap_cons, Hdocs. f_equal. by apply link_of_decoded. }
  destruct (Hfold []) as (docs & -> & Hdocs). by exists docs.
Qed.

End DecodeFacts.

(** * The remote calls *)

Section RemoteFacts.

Variable linkID : string → string.
Variable json_Marshal : Convex.UdfExecution → error + string.
Variable http_Post : string → string → string → error + Convex.Response.
Variable json_scan : string → error + Convex.json.
Variable Sprint_reader : Convex.Response → string.

Local Abbreviation mutation := (Convex.mutation json_Marshal http_Post json_scan Sprint_reader).
Local Abbreviation query := (Convex.query json_Marshal http_Post json_scan Sprint_reader).
Local Abbreviation answered := (answered json_Marshal http_Post).

Implicit Types (c : Convex.ConvexDB) (args : Convex.UdfExecution) (resp : Convex.Response).

Lemma mutation_args c args : (mutation c args).1 = Convex.with_token c args.
Proof. unfold Convex.mutation. by repeat case_match. Qed.

Lemma query_args c args : (query c args).1 = Convex.with_token c args.
Proof. unfold Convex.query. by repeat case_match. Qed.

(** What a mutation returns once the server has answered with status 200
    and a body that scans as [j]. *)
Lemma mutation_200 c args resp (j : Convex.json) :
  answered "/api/mutation" c args resp → Convex.StatusCode resp = 200 →
  json_scan (Convex.Body resp) = inr j →
  (mutation c args).2 =
    match Convex.Decode_response j with
    | inl err => Some err
    | inr r =>
        if String.eqb (Convex.Status r) "success" then None
        else if String.eqb (Convex.Status r) "error"
             then Some (application_error (Convex.ErrorMessage r))
             else Some (Errorf ("unexpected response from Convex: " +:+ Sprint_reader resp))
    end.
Proof.
  intros (enc & HM & HP) H200 Hscan. unfold Convex.mutation.
  rewrite HM, HP, H200, Hscan. cbn [bool_decide decide_rel].
  rewrite bool_decide_eq_false_2 by (intros Hne; by apply Hne).
  by repeat case_match.
Qed.

Lemma query_200 c args resp (j : Convex.json) :
  answered "/api/query" c args resp → Convex.StatusCode resp = 200 →
  json_scan (Convex.Body resp) = inr j →
  (query c args).2 =
    match Convex.Decode_response j with
    | inl err => inl err
    | inr r =>
        if String.eqb (Convex.Status r) "success" then inr (Convex.Value r)
        else if String.eqb (Convex.Status r) "error"
             then inl (application_error (Convex.ErrorMessage r))
             else inl (Errorf ("unexpected response from Convex: " +:+ Sprint_reader resp))
    end.
Proof.
  intros (enc & HM & HP) H200 Hscan. unfold Convex.query.
  rewrite HM, HP, H200, Hscan.
  rewrite bool_decide_eq_false_2 by (intros Hne; by apply Hne).
  by repeat case_match.
Qed.

Lemma mutation_not_200 c args resp :
  answered "/api/mutation" c args resp → Convex.StatusCode resp ≠ 200 →
  (mutation c args).2
  = Some (Errorf ("unexpected status code from Convex: " +:+ pretty (Convex.StatusCode resp))).
Proof.
  intros (enc & HM & HP) Hne. unfold Convex.mutation.
  by rewrite HM, HP, bool_decide_eq_true_2.
Qed.

Lemma query_not_200 c args resp :
  answered "/api/query" c args resp → Convex.StatusCode resp ≠ 200 →
  (query c args).2
  = inl (Errorf ("unexpected status code from Convex: " +:+ pretty (Convex.StatusCode resp)
                 +:+ ": " +:+ Convex.Body resp)).
Proof.
  intros (enc & HM & HP) Hne. unfold Convex.query.
  by rewrite HM, HP, bool_decide_eq_true_2.
Qed.

(** The answer of [loadOne] that [Load] decodes. *)
Lemma Load_200 c (short : string) resp (v : Convex.json) :
  answered "/api/query" c (loadOne_args linkID short) resp → Convex.StatusCode resp = 200 →
  json_scan (Convex.Body resp) = inr (success_envelope v) →
  Convex.Load linkID json_Marshal http_Post json_scan Sprint_reader c short =
    match Convex.Decode_doc_ptr (Some v) with
    | inl err => inl err
    | inr None => inl ErrNotExist
    | inr (Some doc) => inr (Convex.link_of_doc doc)
    end.
Proof.
  intros Hans H200 Hscan. unfold Convex.Load.
  change {| Convex.Path := "load:loadOne"; Convex.Args := _; Convex.Format := "json" |}
    with (loadOne_args linkID short).
  by rewrite (query_200 _ _ _ _ Hans H200 Hscan), Decode_response_success.
Qed.

Lemma LoadAll_200 c resp (v : Convex.json) :
  answered "/api/query" c loadAll_args resp → Convex.StatusCode resp = 200 →
  json_scan (Convex.Body resp) = inr (success_envelope v) →
  Convex.LoadAll json_Marshal http_Post json_scan Sprint_reader c =
    match Convex.Decode_docs (Some v) with
    | inl err => inl err
    | inr docs => inr (Convex.link_of_doc <$> docs)
    end.
Proof.
  intros Hans H200 Hscan. unfold Convex.LoadAll.
  change {| Convex.Path := "load:loadAll"; Convex.Args := ∅; Convex.Format := "json" |}
    with loadAll_args.
  by rewrite (query_200 _ _ _ _ Hans H200 Hscan), Decode_response_success.
Qed.

End RemoteFacts.

Lemma not_application_error_unexpected (t : string) :
  ¬ is_application_error (Errorf ("unexpected " +:+ t)).
Proof. intros [m Hm]. discriminate Hm. Qed.

(** * Names and aliases *)

Lemma filter_ext_in {A} (P Q : A → Prop) `{!∀ x, Decision (P x), !∀ x, Decision (Q x)}
    (l : list A) :
  (∀ x, x ∈ l → P x ↔ Q x) → filter P l = filter Q l.
Proof.
  induction l as [|x l IH]; intros Hext; [done|].
  assert (Hl : filter P l = filter Q l) by (apply IH; intros y Hy; apply Hext; by right).
  destruct (decide (P x)) as [HP|HP].
  - rewrite !filter_cons_True by (done || by apply Hext; [left|]). by rewrite Hl.
  - rewrite !filter_cons_False; [done| |done].
    intros HQ. apply HP, Hext; [left|done].
Qed.

Lemma assoc_filter_key (L : list (string * Z)) (n : string) :
  NoDup L.*1 →
  snd <$> filter (λ kv, kv.1 = n) L = option_list ((list_to_map L : gmap string Z) !! n).
Proof.
  induction L as [|[k v] L IH]; [done|].
  rewrite fmap_cons, NoDup_cons. cbn [fst]. intros [Hk Hnd]. cbn [list_to_map foldr].
  destruct (decide (k = n)) as [->|Hne].
  - rewrite filter_cons_True by done. rewrite lookup_insert_eq. cbn.
    rewrite (proj2 (filter_nil_iff _ _)); [done|].
    intros kv Hkv Heq. apply Hk. rewrite <- Heq. by apply list_elem_of_fmap_2.
  - rewrite filter_cons_False by done. rewrite lookup_insert_ne by done. by apply IH.
Qed.

Lemma deltas_of_no_alias (linkID : string → string) (stats : ClickStats) (n : string) :
  (∀ k v, stats !! k = Some v → linkID k = linkID n → k = n) →
  deltas_of linkID (linkID n) stats = option_list (stats !! n).
Proof.
  intros Halias. unfold deltas_of.
  rewrite (filter_ext_in _ (λ kv, kv.1 = n)).
  - rewrite assoc_filter_key by apply NoDup_fst_map_to_list.
    by rewrite list_to_map_to_list.
  - intros [k v] Hkv. cbn [fst]. apply elem_of_map_to_list in Hkv.
    split; [by apply (Halias k v)|by intros ->].
Qed.

Lemma saved_deltas_no_alias (linkID : string → string) (n : string) (calls : list call) :
  no_alias linkID n calls → saved_deltas linkID (linkID n) calls = named_deltas n calls.
Proof.
  unfold saved_deltas, named_deltas. induction 1 as [|c calls Hc _ IH]; [done|].
  cbn. rewrite IH. f_equal. destruct c as [link|stats now]; [done|].
  by apply deltas_of_no_alias.
Qed.

(** * Properties of the local store *)

(** C1, evaluated on the code: on a new store [SaveStats({"bar": 3})] is
    called and no Link "bar" is ever saved.  [LoadStats] then succeeds
    and its result is not empty: the three clicks of the orphaned
    identifier are reported under the empty display name. *)
Theorem LoadStats_orphan_under_empty_name :
  SQLite.LoadStats linkID_lower
    (run linkID_lower [CallSaveStats {[ "bar"%string := 3 ]} 1700000000]) None None
  = inr {[ ""%string := 3 ]}.
Proof. vm_compute. reflexivity. Qed.

(** C2, amended: after any history of successful [Save] and [SaveStats]
    calls on a new local store, with counts that are not negative and
    whose totals per identifier fit 64 bits, [LoadStats] succeeds and,
    for every Link that [LoadAll] returns and whose short name is not
    empty, its entry under that short name is the sum of all deltas ever
    passed to [SaveStats] under the names that normalise to the Link's
    identifier; when no other name with that identifier was ever passed,
    this is the sum of all deltas passed for the short name itself. *)
Theorem LoadStats_accumulates_for_stored_link (linkID : string → string)
    (calls : list call) (links : list Link) (l : Link) :
  counts_nonneg calls →
  (∀ id, total (saved_deltas linkID id calls) ≤ int64_max) →
  SQLite.LoadAll (run linkID calls) None = inr links →
  l ∈ links →
  Short l ≠ ""%string →
  ∃ m : ClickStats,
    SQLite.LoadStats linkID (run linkID calls) None None = inr m ∧
    clicks_at m (Short l) = total (saved_deltas linkID (linkID (Short l)) calls) ∧
    (no_alias linkID (Short l) calls →
     clicks_at m (Short l) = total (named_deltas (Short l) calls)).
Proof.
  intros Hpos Hmax [= <-] Hl Hn.
  apply list_elem_of_fmap in Hl as (r & -> & Hr). cbn [Short SQLite.link_of_row] in *.
  destruct (LoadStats_of_history linkID calls r Hpos Hmax Hr Hn) as (m & Hm & Hclicks).
  exists m. split_and!; [done|done|].
  intros Halias. by rewrite Hclicks, saved_deltas_no_alias.
Qed.

Lemma sample_history_bounded (id : string) :
  total (saved_deltas linkID_lower id sample_history) ≤ int64_max.
Proof.
  unfold sample_history, saved_deltas, deltas_of. cbn [mbind list_bind foldr app].
  rewrite !map_to_list_singleton.
  destruct (decide (linkID_lower "foo" = id)) as [Hid|Hid].
  - rewrite !filter_cons_True by done. by vm_compute.
  - rewrite !filter_cons_False by done. by vm_compute.
Qed.

Lemma LoadStats_accumulates_for_stored_link_witness :
  ∃ m : ClickStats,
    SQLite.LoadStats linkID_lower (run linkID_lower sample_history) None None = inr m ∧
    clicks_at m "foo" = 5 ∧ total (named_deltas "foo" sample_history) = 5.
Proof.
  destruct (LoadStats_accumulates_for_stored_link linkID_lower sample_history
              [SQLite.link_of_row
                 (SQLite.row_of_link linkID_lower (sample_link "foo" "http://example.com"))]
              (SQLite.link_of_row
                 (SQLite.row_of_link linkID_lower (sample_link "foo" "http://example.com"))))
    as (m & Hm & Hclicks & _).
  - repeat constructor; by apply map_Forall_singleton.
  - apply sample_history_bounded.
  - vm_compute. reflexivity.
  - left.
  - discriminate.
  - exists m. split; [exact Hm|]. split; [|vm_compute; reflexivity].
    etransitivity; [exact Hclicks|]. vm_compute. reflexivity.
Defined.

(** C2 as stated fails twice.  With no Link "foo" saved, the flushes of
    3 and 2 clicks for "foo" leave no entry for "foo" at all.  With Link
    "foo" saved, 3 clicks flushed under "Foo" are added to the 2 clicks
    flushed under "foo": the entry is 5, the deltas passed for "foo" sum
    to 2. *)
Lemma LoadStats_accumulates_counterexample :
  (total (named_deltas "foo" orphan_history) = 5 ∧
   ∃ m : ClickStats,
     SQLite.LoadStats linkID_lower (run linkID_lower orphan_history) None None = inr m ∧
     m !! "foo"%string = None ∧ clicks_at m "foo" ≠ 5) ∧
  (total (named_deltas "foo" alias_history) = 2 ∧
   ∃ m : ClickStats,
     SQLite.LoadStats linkID_lower (run linkID_lower alias_history) None None = inr m ∧
     clicks_at m "foo" = 5).
Proof.
  split; (split; [by vm_compute|]); eexists; (split; [vm_compute; reflexivity|]).
  - split; by vm_compute.
  - by vm_compute.
Qed.

(** C4: [Save] is an idempotent upsert keyed by the normalised
    identifier.  For two Links with the same identifier (the same short
    name in particular) that are saved one after the other on any store,
    both calls succeed; after the first call and after the second call
    exactly one row holds the identifier, with all the fields of the
    Link saved last; the rows of the other identifiers are as before;
    the store is the same as if only the later Link had been saved;
    saving the later Link again changes nothing; the ledger is as
    before; and when the identifier is new the row is added to the rows
    that were there. *)
Theorem Save_is_idempotent_upsert (linkID : string → string) (s : SQLite.SQLiteDB)
    (l1 l2 : Link) :
  linkID (Short l1) = linkID (Short l2) →
  let healthy := SQLite.ExecDone (inr 1) in
  let key := linkID (Short l2) in
  let after1 := SQLite.Save linkID s healthy l1 in
  let after2 := SQLite.Save linkID after1.1 healthy l2 in
  after1.2 = None ∧ after2.2 = None ∧
  filter (λ r, SQLite.row_ID r = key) (SQLite.Links after1.1) = [SQLite.row_of_link linkID l1] ∧
  filter (λ r, SQLite.row_ID r = key) (SQLite.Links after2.1) = [SQLite.row_of_link linkID l2] ∧
  filter (λ r, SQLite.row_ID r ≠ key) (SQLite.Links after2.1)
    = filter (λ r, SQLite.row_ID r ≠ key) (SQLite.Links s) ∧
  after2.1 = (SQLite.Save linkID s healthy l2).1 ∧
  SQLite.Save linkID after2.1 healthy l2 = after2 ∧
  SQLite.Stats after2.1 = SQLite.Stats s ∧
  ((∀ r, r ∈ SQLite.Links s → SQLite.row_ID r ≠ key) →
   SQLite.Links after1.1 = SQLite.Links s ++ [SQLite.row_of_link linkID l1]).
Proof.
  intros Hkey. cbv zeta. rewrite !Save_healthy. cbn [fst snd SQLite.Links SQLite.Stats].
  set (r1 := SQLite.row_of_link linkID l1). set (r2 := SQLite.row_of_link linkID l2).
  assert (Hk : SQLite.row_ID r1 = SQLite.row_ID r2) by exact Hkey.
  change (linkID (Short l2)) with (SQLite.row_ID r2).
  split_and!; try done.
  - rewrite <- Hk. apply filter_key_insert_or_replace.
  - apply filter_key_insert_or_replace.
  - rewrite filter_other_insert_or_replace. rewrite <- Hk.
    apply filter_other_insert_or_replace.
  - f_equal. by apply insert_or_replace_same_key.
  - do 2 f_equal. by apply insert_or_replace_same_key.
  - intros Hnew. apply insert_or_replace_new. intros x Hx. rewrite Hk. by apply Hnew.
Qed.

Lemma Save_is_idempotent_upsert_witness :
  let l1 := sample_link "foo" "http://example.com" in
  let l2 := sample_link "foo" "http://example.org" in
  let after1 := SQLite.Save linkID_lower SQLite.empty_db (SQLite.ExecDone (inr 1)) l1 in
  let after2 := SQLite.Save linkID_lower after1.1 (SQLite.ExecDone (inr 1)) l2 in
  linkID_lower (Short l1) = linkID_lower (Short l2) ∧
  after1.2 = None ∧ after2.2 = None ∧
  SQLite.Links after2.1 = [SQLite.row_of_link linkID_lower l2].
Proof.
  intros l1 l2 after1 after2.
  pose proof (Save_is_idempotent_upsert linkID_lower SQLite.empty_db l1 l2 eq_refl)
    as (H1 & H2 & _).
  split; [reflexivity|]. split; [exact H1|]. split; [exact H2|]. vm_compute. reflexivity.
Defined.

(** C5: [SaveStats] on the local store is all-or-nothing.  When it
    returns no error, no step of the transaction failed and the ledger
    has grown by exactly one row per entry of the map, the Links being
    untouched.  When it returns an error, that error is the failure of
    [BeginTx], of one of the writes or of [Commit], and the store is
    exactly as it was before the call: no delta of the call is
    recorded.  Hence a failing write always yields the second case. *)
Theorem SaveStats_all_or_nothing (linkID : string → string) (s : SQLite.SQLiteDB)
    (f : SQLite.tx_faults) (stats : ClickStats) (now : Z) :
  let entries := map_to_list stats in
  let result := SQLite.SaveStats linkID s f stats now in
  match result.2 with
  | None =>
      result.1 = {| SQLite.Links := SQLite.Links s;
                    SQLite.Stats := SQLite.Stats s ++ (row_of_delta linkID now <$> entries) |} ∧
      SQLite.begin_fault f = None ∧
      (∀ i, (i < length entries)%nat → SQLite.exec_fault f i = None) ∧
      SQLite.commit_fault f = None
  | Some err =>
      result.1 = s ∧
      (SQLite.begin_fault f = Some err ∨
       (∃ i, (i < length entries)%nat ∧ SQLite.exec_fault f i = Some err) ∨
       SQLite.commit_fault f = Some err)
  end.
Proof.
  intros entries result. subst entries result. unfold SQLite.SaveStats.
  destruct (SQLite.begin_fault f) as [err|] eqn:Hbegin; [cbn; auto|].
  pose proof (exec_all_spec linkID (SQLite.exec_fault f) now (map_to_list stats) 0%nat
                (SQLite.BeginTx s)) as Hx.
  destruct (SQLite.exec_all _ _ _ _ _ _) as [[s' err]|tx'].
  - destruct Hx as [-> (j & Hj & Hf)]. cbn. split; [done|]. right. left. by exists j.
  - destruct Hx as (Hdb & Hrows & Hnone).
    destruct (SQLite.commit_fault f) as [err|] eqn:Hcommit; [cbn; auto|].
    cbn [fst snd]. split_and!; [|done|exact Hnone|done].
    unfold SQLite.Commit. by rewrite Hdb, Hrows.
Qed.

(** C8: a [Save] whose statement reports a number of affected rows
    other than one returns the error "expected to affect 1 row, affected
    N" and not success; a [Save] that succeeds ran a statement that
    reported exactly one affected row. *)
Theorem Save_checks_rows_affected (linkID : string → string) (s : SQLite.SQLiteDB)
    (link : Link) :
  (∀ rows : Z, rows ≠ 1 →
     (SQLite.Save linkID s (SQLite.ExecDone (inr rows)) link).2
     = Some (Errorf ("expected to affect 1 row, affected " +:+ pretty rows))) ∧
  (∀ o, (SQLite.Save linkID s o link).2 = None → o = SQLite.ExecDone (inr 1)).
Proof.
  split.
  - intros rows Hrows. cbn. by rewrite bool_decide_eq_true_2.
  - intros o. apply Save_success_inv.
Qed.

Lemma Save_checks_rows_affected_witness :
  (SQLite.Save linkID_lower SQLite.empty_db (SQLite.ExecDone (inr 0))
     (sample_link "foo" "http://example.com")).2
  = Some (Errorf "expected to affect 1 row, affected 0") ∧
  (SQLite.Save linkID_lower SQLite.empty_db (SQLite.ExecDone (inr 2))
     (sample_link "foo" "http://example.com")).2
  = Some (Errorf "expected to affect 1 row, affected 2").
Proof.
  split.
  - apply (proj1 (Save_checks_rows_affected linkID_lower SQLite.empty_db
                    (sample_link "foo" "http://example.com")) 0). lia.
  - apply (proj1 (Save_checks_rows_affected linkID_lower SQLite.empty_db
                    (sample_link "foo" "http://example.com")) 2). lia.
Defined.

(** C10: after a successful [Save] of a Link on the local store, [Load]
    of its short name returns a Link with the same Short, Long and
    Owner, and with Created and LastEdit cut down to whole epoch seconds
    and placed in UTC. *)
Theorem Save_Load_truncates_to_seconds (linkID : string → string) (s : SQLite.SQLiteDB)
    (o : SQLite.exec_outcome) (l : Link) :
  (SQLite.Save linkID s o l).2 = None →
  SQLite.Load linkID (SQLite.Save linkID s o l).1 None (Short l)
  = inr {| Short := Short l;
           Long := Long l;
           Created := Time_UTC (Time_Truncate_Second (Created l));
           LastEdit := Time_UTC (Time_Truncate_Second (LastEdit l));
           Owner := Owner l |}.
Proof.
  intros Hok. apply Save_success_inv in Hok as ->. rewrite Save_healthy. cbn [fst].
  rewrite (SQLite_Load_present linkID _ _ (SQLite.row_of_link linkID l)).
  - by rewrite link_of_row_of_link.
  - cbn [SQLite.Links]. apply (select_insert_or_replace (SQLite.row_of_link linkID l)).
Qed.

Lemma Save_Load_truncates_to_seconds_witness :
  let l := sample_link "foo" "http://example.com" in
  let saved := SQLite.Save linkID_lower SQLite.empty_db (SQLite.ExecDone (inr 1)) l in
  saved.2 = None ∧
  SQLite.Load linkID_lower saved.1 None "foo"
  = inr {| Short := "foo"; Long := "http://example.com";
           Created := {| unix_sec := 1700000000; nsec := 0; loc := UTC |};
           LastEdit := {| unix_sec := 1700000000; nsec := 0; loc := UTC |};
           Owner := "alice" |}.
Proof.
  intros l saved. split; [reflexivity|].
  exact (Save_Load_truncates_to_seconds linkID_lower SQLite.empty_db
           (SQLite.ExecDone (inr 1)) l eq_refl).
Defined.

(** * Properties of the remote store *)

(** C3, amended: [Load] of a short name with no stored record fails
    with fs.ErrNotExist.  On the local store this holds whenever no row
    has the normalised identifier of the name.  On the remote store it
    holds whenever the server answers [loadOne] with status 200 and a
    success envelope whose value is JSON null. *)
Theorem Load_absent_is_ErrNotExist (linkID : string → string)
    (json_Marshal : Convex.UdfExecution → error + string)
    (http_Post : string → string → string → error + Convex.Response)
    (json_scan : string → error + Convex.json)
    (Sprint_reader : Convex.Response → string) :
  (∀ (s : SQLite.SQLiteDB) (short : string),
     (∀ r, r ∈ SQLite.Links s → SQLite.row_ID r ≠ linkID short) →
     SQLite.Load linkID s None short = inl ErrNotExist) ∧
  (∀ (c : Convex.ConvexDB) (short : string) (resp : Convex.Response),
     answered json_Marshal http_Post "/api/query" c (loadOne_args linkID short) resp →
     Convex.StatusCode resp = 200 →
     json_scan (Convex.Body resp) = inr (success_envelope Convex.JNull) →
     Convex.Load linkID json_Marshal http_Post json_scan Sprint_reader c short
     = inl ErrNotExist).
Proof.
  split.
  - apply SQLite_Load_absent.
  - intros c short resp Hans H200 Hscan.
    by rewrite (Load_200 _ _ _ _ _ _ _ _ _ Hans H200 Hscan).
Qed.

Lemma Load_absent_is_ErrNotExist_witness :
  SQLite.Load linkID_lower SQLite.empty_db None "does-not-exist" = inl ErrNotExist ∧
  Convex.Load linkID_lower stub_Marshal (stub_Post ok_response)
    (stub_scan (success_envelope Convex.JNull)) stub_Sprint sample_client "does-not-exist"
  = inl ErrNotExist.
Proof.
  pose proof (Load_absent_is_ErrNotExist linkID_lower stub_Marshal (stub_Post ok_response)
                (stub_scan (success_envelope Convex.JNull)) stub_Sprint) as [Hlocal Hremote].
  split.
  - apply Hlocal. intros r Hr. by apply elem_of_nil in Hr.
  - apply (Hremote sample_client "does-not-exist"%string ok_response).
    + eexists. split; reflexivity.
    + reflexivity.
    + reflexivity.
Defined.

(** C3 as stated fails for an absent value: the server answers
    [loadOne] with status 200 and the envelope [{"status":"success"}],
    which has no value; [Load] returns io.EOF, which is not
    fs.ErrNotExist. *)
Lemma Load_absent_value_is_EOF :
  Convex.Load linkID_lower stub_Marshal (stub_Post ok_response)
    (stub_scan (Convex.JObj [("status"%string, Convex.JStr "success")]))
    stub_Sprint sample_client "does-not-exist"
  = inl EOF ∧ EOF ≠ ErrNotExist.
Proof. split; [vm_compute; reflexivity|discriminate]. Qed.

(** C6: when the server answers a query or a mutation with status 200
    and the envelope [{"status":"error","errorMessage":m}], the call
    fails with the application error, whose message is "error from
    Convex: " followed by [m] as it stands.  When the status code is not
    200, or the status of the envelope is neither "success" nor
    "error", the call fails with an error whose message starts with
    "unexpected", which no application error does; it never succeeds. *)
Theorem remote_error_propagation
    (json_Marshal : Convex.UdfExecution → error + string)
    (http_Post : string → string → string → error + Convex.Response)
    (json_scan : string → error + Convex.json)
    (Sprint_reader : Convex.Response → string)
    (c : Convex.ConvexDB) (args : Convex.UdfExecution) (resp : Convex.Response) :
  let mutation := Convex.mutation json_Marshal http_Post json_scan Sprint_reader in
  let query := Convex.query json_Marshal http_Post json_scan Sprint_reader in
  (answered json_Marshal http_Post "/api/mutation" c args resp →
     (∀ m, Convex.StatusCode resp = 200 →
           json_scan (Convex.Body resp) = inr (error_envelope m) →
           (mutation c args).2 = Some (Errorf ("error from Convex: " +:+ m))) ∧
     (Convex.StatusCode resp ≠ 200 →
        ∃ t, (mutation c args).2 = Some (Errorf ("unexpected " +:+ t))) ∧
     (∀ j r, Convex.StatusCode resp = 200 →
             json_scan (Convex.Body resp) = inr j → Convex.Decode_response j = inr r →
             Convex.Status r ≠ "success"%string → Convex.Status r ≠ "error"%string →
             ∃ t, (mutation c args).2 = Some (Errorf ("unexpected " +:+ t)))) ∧
  (answered json_Marshal http_Post "/api/query" c args resp →
     (∀ m, Convex.StatusCode resp = 200 →
           json_scan (Convex.Body resp) = inr (error_envelope m) →
           (query c args).2 = inl (Errorf ("error from Convex: " +:+ m))) ∧
     (Convex.StatusCode resp ≠ 200 →
        ∃ t, (query c args).2 = inl (Errorf ("unexpected " +:+ t))) ∧
     (∀ j r, Convex.StatusCode resp = 200 →
             json_scan (Convex.Body resp) = inr j → Convex.Decode_response j = inr r →
             Convex.Status r ≠ "success"%string → Convex.Status r ≠ "error"%string →
             ∃ t, (query c args).2 = inl (Errorf ("unexpected " +:+ t)))) ∧
  (∀ t, ¬ is_application_error (Errorf ("unexpected " +:+ t))).
Proof.
  cbv zeta. split_and!.
  - intros Hans. split_and!.
    + intros m H200 Hscan. by rewrite (mutation_200 _ _ _ _ _ _ _ _ Hans H200 Hscan).
    + intros Hne. eexists. rewrite (mutation_not_200 _ _ _ _ _ _ _ Hans Hne). reflexivity.
    + intros j r H200 Hscan Hr Hs He.
      rewrite (mutation_200 _ _ _ _ _ _ _ _ Hans H200 Hscan), Hr.
      apply String.eqb_neq in Hs, He. rewrite Hs, He. eexists. reflexivity.
  - intros Hans. split_and!.
    + intros m H200 Hscan. by rewrite (query_200 _ _ _ _ _ _ _ _ Hans H200 Hscan).
    + intros Hne. eexists. rewrite (query_not_200 _ _ _ _ _ _ _ Hans Hne). reflexivity.
    + intros j r H200 Hscan Hr Hs He.
      rewrite (query_200 _ _ _ _ _ _ _ _ Hans H200 Hscan), Hr.
      apply String.eqb_neq in Hs, He. rewrite Hs, He. eexists. reflexivity.
  - apply not_application_error_unexpected.
Qed.

Lemma remote_error_propagation_witness :
  let args := loadOne_args linkID_lower "foo" in
  (Convex.mutation stub_Marshal (stub_Post ok_response) (stub_scan (error_envelope "boom"))
     stub_Sprint sample_client args).2
  = Some (Errorf "error from Convex: boom") ∧
  (Convex.query stub_Marshal (stub_Post ok_response) (stub_scan (error_envelope "boom"))
     stub_Sprint sample_client args).2
  = inl (Errorf "error from Convex: boom").
Proof.
  intros args.
  pose proof (remote_error_propagation stub_Marshal (stub_Post ok_response)
                (stub_scan (error_envelope "boom")) stub_Sprint sample_client args ok_response)
    as (Hm & Hq & _).
  split.
  - apply Hm; [eexists; split; reflexivity|reflexivity|reflexivity].
  - apply Hq; [eexists; split; reflexivity|reflexivity|reflexivity].
Defined.

(** C9: [query] and [mutation] write the bearer token of the client into
    the [Args] map of the request they are given, whatever the encoder,
    the network and the server do, hence whether the call succeeds or
    fails; the other keys of the map are left as they were. *)
Theorem token_merged_into_args
    (json_Marshal : Convex.UdfExecution → error + string)
    (http_Post : string → string → string → error + Convex.Response)
    (json_scan : string → error + Convex.json)
    (Sprint_reader : Convex.Response → string)
    (c : Convex.ConvexDB) (args : Convex.UdfExecution) :
  let after_mutation := (Convex.mutation json_Marshal http_Post json_scan Sprint_reader c args).1 in
  let after_query := (Convex.query json_Marshal http_Post json_scan Sprint_reader c args).1 in
  Convex.Args after_mutation !! "token"%string = Some (Convex.ArgString (Convex.token c)) ∧
  Convex.Args after_query !! "token"%string = Some (Convex.ArgString (Convex.token c)) ∧
  (∀ k, k ≠ "token"%string →
        Convex.Args after_mutation !! k = Convex.Args args !! k ∧
        Convex.Args after_query !! k = Convex.Args args !! k) ∧
  Convex.Path after_mutation = Convex.Path args ∧ Convex.Path after_query = Convex.Path args ∧
  Convex.Format after_mutation = Convex.Format args ∧
  Convex.Format after_query = Convex.Format args.
Proof.
  cbv zeta. rewrite mutation_args, query_args. unfold Convex.with_token.
  cbn [Convex.Args Convex.Path Convex.Format]. split_and!; try done.
  - apply lookup_insert_eq.
  - apply lookup_insert_eq.
  - intros k Hk. by rewrite lookup_insert_ne.
Qed.

(** C7, amended: the timestamps cross the boundary as float64.  Every
    whole number of epoch seconds of magnitude at most 2^53 is
    recovered exactly: [Load] and [LoadAll] return, for the documents
    that the server sends, the Links with exactly the sent epoch
    seconds, and the document that [Save] sends holds exactly the epoch
    seconds of the saved Link. *)
Theorem remote_timestamps_exact_up_to_2_53 (linkID : string → string)
    (json_Marshal : Convex.UdfExecution → error + string)
    (http_Post : string → string → string → error + Convex.Response)
    (json_scan : string → error + Convex.json)
    (Sprint_reader : Convex.Response → string)
    (c : Convex.ConvexDB) :
  (∀ (short : string) (resp : Convex.Response) (w : WireLink),
     answered json_Marshal http_Post "/api/query" c (loadOne_args linkID short) resp →
     Convex.StatusCode resp = 200 →
     json_scan (Convex.Body resp) = inr (success_envelope (link_document w)) →
     within_2_53 (w_Created w) → within_2_53 (w_LastEdit w) →
     Convex.Load linkID json_Marshal http_Post json_scan Sprint_reader c short
     = inr (link_of_wire w)) ∧
  (∀ (resp : Convex.Response) (ws : list WireLink),
     answered json_Marshal http_Post "/api/query" c loadAll_args resp →
     Convex.StatusCode resp = 200 →
     json_scan (Convex.Body resp)
       = inr (success_envelope (Convex.JArr (link_document <$> ws))) →
     Forall (λ w, within_2_53 (w_Created w) ∧ within_2_53 (w_LastEdit w)) ws →
     Convex.LoadAll json_Marshal http_Post json_scan Sprint_reader c
     = inr (link_of_wire <$> ws)) ∧
  (∀ link : Link,
     within_2_53 (Time_Unix (Created link)) → within_2_53 (Time_Unix (LastEdit link)) →
     let document := Convex.doc_of_link linkID link in
     Convex.float64_integer (Convex.doc_Created document) = Some (Time_Unix (Created link)) ∧
     Convex.float64_integer (Convex.doc_LastEdit document) = Some (Time_Unix (LastEdit link)) ∧
     Convex.Save linkID json_Marshal http_Post json_scan Sprint_reader c link
     = (Convex.mutation json_Marshal http_Post json_scan Sprint_reader c
          {| Convex.Path := "store";
             Convex.Args := {[ "link"%string := Convex.ArgLink document ]};
             Convex.Format := "json" |}).2).
Proof.
  split_and!.
  - intros short resp w Hans H200 Hscan Hc He.
    rewrite (Load_200 _ _ _ _ _ _ _ _ _ Hans H200 Hscan).
    destruct (Decode_doc_ptr_document w Hc He) as (doc & -> & Hdoc). by rewrite Hdoc.
  - intros resp ws Hans H200 Hscan Hws.
    rewrite (LoadAll_200 _ _ _ _ _ _ _ Hans H200 Hscan).
    destruct (Decode_docs_documents ws Hws) as (docs & -> & Hdocs). by rewrite Hdocs.
  - intros link (_ & _ & Hc)%float64_of_Z_exact (_ & _ & He)%float64_of_Z_exact.
    cbv zeta. cbn [Convex.doc_of_link Convex.doc_Created Convex.doc_LastEdit].
    split_and!; [exact Hc|exact He|reflexivity].
Qed.

Lemma remote_timestamps_exact_up_to_2_53_witness :
  Convex.Load linkID_lower stub_Marshal (stub_Post ok_response)
    (stub_scan (success_envelope (link_document sample_wire))) stub_Sprint sample_client "foo"
  = inr {| Short := "foo"; Long := "http://example.com";
           Created := {| unix_sec := 1700000000; nsec := 0; loc := Local |};
           LastEdit := {| unix_sec := 1700000500; nsec := 0; loc := Local |};
           Owner := "alice" |} ∧
  Convex.float64_integer
    (Convex.doc_Created (Convex.doc_of_link linkID_lower (sample_link "foo" "http://example.com")))
  = Some 1700000000.
Proof.
  pose proof (remote_timestamps_exact_up_to_2_53 linkID_lower stub_Marshal (stub_Post ok_response)
                (stub_scan (success_envelope (link_document sample_wire))) stub_Sprint
                sample_client) as (HLoad & _ & HSave).
  split.
  - apply (HLoad "foo"%string ok_response sample_wire).
    + eexists. split; reflexivity.
    + reflexivity.
    + reflexivity.
    + unfold within_2_53. cbn. lia.
    + unfold within_2_53. cbn. lia.
  - apply (HSave (sample_link "foo" "http://example.com")); unfold within_2_53; cbn; lia.
Defined.

(** C7 as stated fails beyond 2^53.  The server sends a Link whose
    timestamps are 9007199254740993; [Load] returns the Link with the
    timestamps 9007199254740992.  A Link created at second
    9007199254740993 is sent by [Save] as 9007199254740992. *)
Lemma remote_timestamp_rounded :
  (∃ l : Link,
     Convex.Load linkID_lower stub_Marshal (stub_Post ok_response)
       (stub_scan (success_envelope (link_document far_future))) stub_Sprint sample_client "foo"
     = inr l ∧
     Time_Unix (Created l) = 9007199254740992 ∧
     Time_Unix (Created l) ≠ w_Created far_future) ∧
  (let link := {| Short := "foo"; Long := "http://example.com";
                  Created := {| unix_sec := 9007199254740993; nsec := 0; loc := UTC |};
                  LastEdit := {| unix_sec := 9007199254740993; nsec := 0; loc := UTC |};
                  Owner := "alice" |} in
   Convex.float64_integer (Convex.doc_Created (Convex.doc_of_link linkID_lower link))
   = Some 9007199254740992 ∧
   Convex.float64_integer (Convex.doc_Created (Convex.doc_of_link linkID_lower link))
   ≠ Some (Time_Unix (Created link))).
Proof.
  split.
  - eexists. split; [vm_compute; reflexivity|]. split; [reflexivity|discriminate].
  - cbv zeta. split; [vm_compute; reflexivity|]. vm_compute. discriminate.
Qed.

(** * Evaluations on concrete inputs *)

(** The sample normaliser is idempotent, as the data model requires. *)
Lemma lower_ascii_idempotent (c : ascii) : lower_ascii (lower_ascii c) = lower_ascii c.
Proof. destruct c as [[] [] [] [] [] [] [] []]; reflexivity. Qed.

Lemma linkID_lower_idempotent (short : string) :
  linkID_lower (linkID_lower short) = linkID_lower short.
Proof.
  unfold linkID_lower. induction short as [|c rest IH]; [done|].
  cbn [to_lower]. by rewrite lower_ascii_idempotent, IH.
Qed.

(** Three clicks and then two clicks for the stored Link "foo". *)
Example stats_accumulate :
  SQLite.LoadStats linkID_lower (run linkID_lower sample_history) None None
  = inr {[ "foo"%string := 5 ]}.
Proof. vm_compute. reflexivity. Qed.

(** Saving "foo" twice with different destinations leaves one row. *)
Example upsert_twice :
  SQLite.LoadAll
    (run linkID_lower [CallSave (sample_link "foo" "http://example.com");
                       CallSave (sample_link "foo" "http://example.org")]) None
  = inr [ {| Short := "foo"; Long := "http://example.org";
             Created := {| unix_sec := 1700000000; nsec := 0; loc := UTC |};
             LastEdit := {| unix_sec := 1700000000; nsec := 0; loc := UTC |};
             Owner := "alice" |} ].
Proof. vm_compute. reflexivity. Qed.

(** The second of two writes fails: the first delta is not recorded. *)
Example rollback_on_second_write :
  let faults := {| SQLite.begin_fault := None;
                   SQLite.exec_fault := λ i, if (i =? 1)%nat then Some (DriverError "disk I/O error")
                                              else None;
                   SQLite.commit_fault := None |} in
  SQLite.SaveStats linkID_lower (run linkID_lower sample_history) faults
    {[ "foo"%string := 1; "bar"%string := 1 ]} 1700000003
  = (run linkID_lower sample_history, Some (DriverError "disk I/O error")).
Proof. vm_compute. reflexivity. Qed.

(** A Link saved as "Foo" is found under "foo" and keeps its display name. *)
Example load_is_case_stable :
  SQLite.Load linkID_lower
    (run linkID_lower [CallSave (sample_link "Foo" "http://example.com")]) None "foo"
  = inr {| Short := "Foo"; Long := "http://example.com";
           Created := {| unix_sec := 1700000000; nsec := 0; loc := UTC |};
           LastEdit := {| unix_sec := 1700000000; nsec := 0; loc := UTC |};
           Owner := "alice" |}.
Proof. vm_compute. reflexivity. Qed.

(** Status 500 on a query: the code and the body are in the message. *)
Example query_status_500 :
  (Convex.query stub_Marshal
     (stub_Post {| Convex.StatusCode := 500; Convex.Body := "Internal Server Error" |})
     (stub_scan Convex.JNull) stub_Sprint sample_client loadAll_args).2
  = inl (Errorf "unexpected status code from Convex: 500: Internal Server Error").
Proof. vm_compute. reflexivity. Qed.

(** An empty object is not null: [Load] returns a Link with empty fields. *)
Example load_empty_object :
  Convex.Load linkID_lower stub_Marshal (stub_Post ok_response)
    (stub_scan (success_envelope (Convex.JObj []))) stub_Sprint sample_client "foo"
  = inr {| Short := ""; Long := "";
           Created := {| unix_sec := 0; nsec := 0; loc := Local |};
           LastEdit := {| unix_sec := 0; nsec := 0; loc := Local |};
           Owner := "" |}.
Proof. vm_compute. reflexivity. Qed.

(** * Further properties of the local store *)

Section LookupFacts.

Implicit Types (r : SQLite.LinkRow) (t : list SQLite.LinkRow) (id : string).

Lemma select_other_insert_or_replace r t id :
  id ≠ SQLite.row_ID r →
  SQLite.select_link_where_id id (SQLite.insert_or_replace r t)
  = SQLite.select_link_where_id id t.
Proof.
  intros Hne. unfold SQLite.select_link_where_id, SQLite.insert_or_replace.
  rewrite filter_app, list_filter_filter.
  rewrite (filter_cons_False _ r) by (intros Heq; by apply Hne).
  rewrite filter_nil, app_nil_r. f_equal. apply list_filter_iff.
  intros x. split; [by intros [? _]|]. intros Hx. split; [done|congruence].
Qed.

Lemma select_Some_elem id t r :
  SQLite.select_link_where_id id t = Some r → r ∈ t ∧ SQLite.row_ID r = id.
Proof.
  unfold SQLite.select_link_where_id. intros Hhead.
  assert (Hin : r ∈ filter (λ x, SQLite.row_ID x = id) t).
  { destruct (filter _ t) as [|x rest]; [discriminate|]. injection Hhead as ->. left. }
  apply list_elem_of_filter in Hin as [? ?]. done.
Qed.

Lemma select_unique_row t r :
  NoDup (SQLite.row_ID <$> t) → r ∈ t →
  SQLite.select_link_where_id (SQLite.row_ID r) t = Some r.
Proof.
  intros Hnd Hr.
  destruct (SQLite.select_link_where_id (SQLite.row_ID r) t) as [r'|] eqn:Hsel.
  - apply select_Some_elem in Hsel as [Hr' Hid]. f_equal.
    by apply (NoDup_fmap_agree SQLite.row_ID t).
  - by destruct (proj1 (select_None_iff _ _) Hsel r Hr).
Qed.

End LookupFacts.

Section LocalStoreExtras.

Variable linkID : string → string.

Implicit Types (s : SQLite.SQLiteDB) (l : Link) (short : string).

(** X1: [Load] never hands sql.ErrNoRows to its caller: the absence of
    a row is always reported as fs.ErrNotExist, and any other failure of
    the engine is returned as it is. *)
Theorem Load_never_ErrNoRows s (io : option error) short :
  SQLite.Load linkID s io short ≠ inl ErrNoRows ∧
  (∀ err, io = Some err → err ≠ ErrNoRows → SQLite.Load linkID s io short = inl err) ∧
  (io = Some ErrNoRows → SQLite.Load linkID s io short = inl ErrNotExist).
Proof.
  unfold SQLite.Load, SQLite.QueryRow_Scan, errors_Is. split_and!.
  - destruct io as [err|].
    + case_bool_decide; [discriminate|]. congruence.
    + destruct (SQLite.select_link_where_id _ _); discriminate.
  - intros err -> Hne. by rewrite bool_decide_eq_false_2.
  - by intros ->.
Qed.

(** X2: on a store whose keys are unique and are the normalised short
    names of their rows, [LoadAll] and [Load] agree: a Link is among the
    Links of [LoadAll] exactly when [Load] of its short name returns it. *)
Theorem LoadAll_Load_agree s (links : list Link) l :
  consistent linkID s →
  SQLite.LoadAll s None = inr links →
  l ∈ links ↔ SQLite.Load linkID s None (Short l) = inr l.
Proof.
  intros [Hnd Hid] [= <-]. split.
  - intros (r & -> & Hr)%list_elem_of_fmap.
    apply SQLite_Load_present. cbn [Short SQLite.link_of_row].
    rewrite <- (proj1 (Forall_forall _ _) Hid r Hr). by apply select_unique_row.
  - unfold SQLite.Load, SQLite.QueryRow_Scan.
    destruct (SQLite.select_link_where_id _ _) as [r|] eqn:Hsel; [|discriminate].
    intros [= <-]. apply select_Some_elem in Hsel as [Hr _].
    by apply list_elem_of_fmap_2.
Qed.

End LocalStoreExtras.

Lemma LoadAll_Load_agree_witness :
  let s := run linkID_lower sample_history in
  let l := as_stored (sample_link "foo" "http://example.com") in
  consistent linkID_lower s ∧ SQLite.LoadAll s None = inr [l] ∧
  (l ∈ [l] ↔ SQLite.Load linkID_lower s None (Short l) = inr l).
Proof.
  intros s l.
  assert (Hs : consistent linkID_lower s) by apply consistent_run.
  assert (Hall : SQLite.LoadAll s None = inr [l]) by (vm_compute; reflexivity).
  split; [exact Hs|]. split; [exact Hall|].
  exact (LoadAll_Load_agree linkID_lower s [l] l Hs Hall).
Defined.

Section SaveExtras.

Variable linkID : string → string.

Implicit Types (s : SQLite.SQLiteDB) (l : Link) (short : string).

(** X3: after a successful [Save] of a Link, [Load] of any name with the
    same normalised identifier (the saved short name in another case,
    say) returns that Link as stored, whatever was stored under the
    identifier before. *)
Theorem Load_by_alias_after_Save s (o : SQLite.exec_outcome) l short :
  linkID short = linkID (Short l) →
  (SQLite.Save linkID s o l).2 = None →
  SQLite.Load linkID (SQLite.Save linkID s o l).1 None short = inr (as_stored l).
Proof.
  intros Hid Hok. apply Save_success_inv in Hok as ->. rewrite Save_healthy. cbn [fst].
  rewrite (SQLite_Load_present linkID _ _ (SQLite.row_of_link linkID l)).
  - by rewrite link_of_row_of_link.
  - rewrite Hid. cbn [SQLite.Links].
    apply (select_insert_or_replace (SQLite.row_of_link linkID l)).
Qed.

(** X4: [Save] of a Link leaves every name with another normalised
    identifier alone: whatever the engine reports for the statement,
    [Load] of such a name answers after the call as it did before. *)
Theorem Save_preserves_other_loads s (o : SQLite.exec_outcome) l (io : option error) short :
  linkID short ≠ linkID (Short l) →
  SQLite.Load linkID (SQLite.Save linkID s o l).1 io short = SQLite.Load linkID s io short.
Proof.
  intros Hne. unfold SQLite.Load, SQLite.QueryRow_Scan.
  destruct io as [err|]; [done|].
  assert (Hsel : SQLite.select_link_where_id (linkID short)
                   (SQLite.insert_or_replace (SQLite.row_of_link linkID l) (SQLite.Links s))
                 = SQLite.select_link_where_id (linkID short) (SQLite.Links s))
    by by apply select_other_insert_or_replace.
  destruct o as [err|[err|rows]]; cbn [SQLite.Save fst SQLite.Links]; [done| |].
  - by rewrite Hsel.
  - case_bool_decide; cbn [fst SQLite.Links]; by rewrite Hsel.
Qed.

Lemma Links_after_saves (ls : list Link) :
  ∀ s, NoDup ((λ l, linkID (Short l)) <$> ls) →
       (∀ l r, l ∈ ls → r ∈ SQLite.Links s → SQLite.row_ID r ≠ linkID (Short l)) →
       SQLite.Links (foldl (apply_call linkID) s (CallSave <$> ls))
       = SQLite.Links s ++ (SQLite.row_of_link linkID <$> ls).
Proof.
  induction ls as [|l ls IH]; intros s Hnd Hfresh; cbn [fmap list_fmap foldl].
  - by rewrite app_nil_r.
  - rewrite fmap_cons in Hnd. apply NoDup_cons in Hnd as [Hl Hnd].
    cbn [apply_call]. rewrite Save_healthy. cbn [fst].
    rewrite IH; cbn [SQLite.Links].
    + rewrite insert_or_replace_new by (intros r Hr; apply (Hfresh l r); [left|done]).
      by rewrite <- app_assoc.
    + done.
    + intros l' r Hl' Hr.
      rewrite insert_or_replace_new in Hr by (intros x Hx; apply (Hfresh l x); [left|done]).
      apply elem_of_app in Hr as [Hr|Hr%list_elem_of_singleton].
      * apply Hfresh; [by right|done].
      * subst r. cbn [SQLite.row_ID SQLite.row_of_link]. intros Heq. apply Hl.
        rewrite Heq. by apply (list_elem_of_fmap_2 (λ l, linkID (Short l))).
Qed.

(** X5: Links with pairwise distinct normalised identifiers that are
    saved one after the other on a new store are all kept: [LoadAll]
    returns exactly these Links, as stored, one record each. *)
Theorem Save_distinct_links_all_kept (ls : list Link) :
  NoDup ((λ l, linkID (Short l)) <$> ls) →
  SQLite.LoadAll (run linkID (CallSave <$> ls)) None = inr (as_stored <$> ls).
Proof.
  intros Hnd. unfold SQLite.LoadAll, run.
  rewrite Links_after_saves; [|done|by intros l r _ Hr%elem_of_nil].
  cbn [SQLite.Links SQLite.empty_db app]. f_equal.
  rewrite <- list_fmap_compose. apply list_fmap_ext. intros i l _.
  apply link_of_row_of_link.
Qed.

(** X6: after any history of successful calls on a new store, no two
    Links of [LoadAll] have the same normalised identifier. *)
Theorem LoadAll_distinct_identifiers (calls : list call) (links : list Link) :
  SQLite.LoadAll (run linkID calls) None = inr links →
  NoDup ((λ l, linkID (Short l)) <$> links).
Proof.
  intros [= <-]. destruct (consistent_run linkID calls) as [Hnd Hid].
  rewrite <- list_fmap_compose.
  rewrite (list_fmap_ext _ SQLite.row_ID (SQLite.Links (run linkID calls))); [done|].
  intros i r Hr. cbn. symmetry.
  apply (proj1 (Forall_forall _ _) Hid). by eapply list_elem_of_lookup_2.
Qed.

(** X7: the ledger is append-only and the two tables are written by
    different calls.  Whatever fails, [SaveStats] leaves the Links as
    they were and the rows that the ledger held are still its first
    rows; whatever the engine reports, [Save] leaves the ledger as it
    was. *)
Theorem ledger_is_append_only s :
  (∀ (f : SQLite.tx_faults) (stats : ClickStats) (now : Z),
     SQLite.Links (SQLite.SaveStats linkID s f stats now).1 = SQLite.Links s ∧
     SQLite.Stats s `prefix_of` SQLite.Stats (SQLite.SaveStats linkID s f stats now).1) ∧
  (∀ (o : SQLite.exec_outcome) l,
     SQLite.Stats (SQLite.Save linkID s o l).1 = SQLite.Stats s).
Proof.
  split.
  - intros f stats now. unfold SQLite.SaveStats.
    destruct (SQLite.begin_fault f); [done|].
    pose proof (exec_all_spec linkID (SQLite.exec_fault f) now (map_to_list stats) 0%nat
                  (SQLite.BeginTx s)) as Hx.
    destruct (SQLite.exec_all _ _ _ _ _ _) as [[s' err]|tx'].
    + destruct Hx as [-> _]. done.
    + destruct Hx as (Hdb & Hrows & _). destruct (SQLite.commit_fault f); [done|].
      unfold SQLite.Commit. cbn [fst SQLite.Links SQLite.Stats]. rewrite Hdb.
      split; [done|]. by apply prefix_app_r.
  - intros o l. destruct o as [err|[err|rows]]; cbn; [done..|]. by case_bool_decide.
Qed.

End SaveExtras.

Lemma Load_by_alias_after_Save_witness :
  let l := sample_link "Foo" "http://example.com" in
  let saved := SQLite.Save linkID_lower SQLite.empty_db (SQLite.ExecDone (inr 1)) l in
  linkID_lower "FOO" = linkID_lower (Short l) ∧ saved.2 = None ∧
  SQLite.Load linkID_lower saved.1 None "FOO" = inr (as_stored l).
Proof.
  intros l saved. split; [reflexivity|]. split; [reflexivity|].
  exact (Load_by_alias_after_Save linkID_lower SQLite.empty_db (SQLite.ExecDone (inr 1))
           l "FOO" eq_refl eq_refl).
Defined.

Lemma Save_preserves_other_loads_witness :
  let s := run linkID_lower sample_history in
  let l := sample_link "bar" "http://example.org" in
  linkID_lower "foo" ≠ linkID_lower (Short l) ∧
  SQLite.Load linkID_lower (SQLite.Save linkID_lower s (SQLite.ExecDone (inr 1)) l).1 None "foo"
  = SQLite.Load linkID_lower s None "foo".
Proof.
  intros s l.
  assert (Hne : linkID_lower "foo" ≠ linkID_lower (Short l)) by (vm_compute; discriminate).
  split; [exact Hne|].
  exact (Save_preserves_other_loads linkID_lower s (SQLite.ExecDone (inr 1)) l None "foo" Hne).
Defined.

Lemma Save_distinct_links_all_kept_witness :
  let ls := [sample_link "foo" "http://example.com"; sample_link "bar" "http://example.org";
             sample_link "baz" "http://example.net"] in
  NoDup ((λ l, linkID_lower (Short l)) <$> ls) ∧
  SQLite.LoadAll (run linkID_lower (CallSave <$> ls)) None = inr (as_stored <$> ls).
Proof.
  intros ls.
  assert (Hnd : NoDup ((λ l, linkID_lower (Short l)) <$> ls)).
  { apply (bool_decide_unpack (NoDup ((λ l, linkID_lower (Short l)) <$> ls))).
    vm_compute. exact I. }
  split; [exact Hnd|]. exact (Save_distinct_links_all_kept linkID_lower ls Hnd).
Defined.

Lemma LoadAll_distinct_identifiers_witness :
  let links := [as_stored (sample_link "foo" "http://example.com")] in
  SQLite.LoadAll (run linkID_lower sample_history) None = inr links ∧
  NoDup ((λ l, linkID_lower (Short l)) <$> links).
Proof.
  intros links.
  assert (Hall : SQLite.LoadAll (run linkID_lower sample_history) None = inr links)
    by (vm_compute; reflexivity).
  split; [exact Hall|].
  exact (LoadAll_distinct_identifiers linkID_lower sample_history links Hall).
Defined.

(** * Further properties of LoadStats on the local store *)

Lemma sum_int64_Some (xs : list Z) :
  ∀ acc t, SQLite.sum_int64 acc xs = Some t → t = acc + total xs.
Proof.
  induction xs as [|x xs IH]; intros acc t; cbn.
  - intros [= <-]. lia.
  - destruct (is_int64 (acc + x)); [|discriminate].
    intros ->%IH. change (foldr Z.add 0 xs) with (total xs). lia.
Qed.

(** The rows that the grouping query returns: one per identifier of the
    ledger, with the total of its clicks. *)
Lemma select_sum_rows (t : list SQLite.StatsRow) (rows : list (string * Z)) :
  SQLite.select_sum_clicks_group_by_id t = Some rows →
  rows.*1 = remove_dups (SQLite.stat_ID <$> t) ∧
  ∀ row, row ∈ rows → row.2 = total (SQLite.clicks_of_id row.1 t).
Proof.
  unfold SQLite.select_sum_clicks_group_by_id. intros Hrows%mapM_Some.
  induction Hrows as [|id row ids rows Hrow _ [IH1 IH2]]; [by split; [|intros ? ?%elem_of_nil]|].
  destruct (SQLite.sum_int64 0 (SQLite.clicks_of_id id t)) as [v|] eqn:Hsum; [|discriminate].
  cbn in Hrow. injection Hrow as <-. apply sum_int64_Some in Hsum. split.
  - rewrite fmap_cons. cbn [fst]. by rewrite IH1.
  - intros row [->|Hrow]%elem_of_cons; [cbn [fst snd]; lia|by apply IH2].
Qed.

Lemma fold_keys (lm : gmap string string) (rows : list (string * Z)) (k : string) (v : Z) :
  ∀ m0 : ClickStats,
    foldl (SQLite.record_group lm) m0 rows !! k = Some v →
    m0 !! k = Some v ∨ ∃ row, row ∈ rows ∧ default ""%string (lm !! row.1) = k ∧ row.2 = v.
Proof.
  induction rows as [|row rows IH]; intros m0 Hm; cbn [foldl] in Hm; [by left|].
  apply IH in Hm as [Hm|(row' & Hin & Hk & Hv)].
  - unfold SQLite.record_group in Hm.
    destruct (decide (default ""%string (lm !! row.1) = k)) as [Heq|Hne].
    + rewrite Heq, lookup_insert_eq in Hm. injection Hm as <-.
      right. exists row. split; [left|done].
    + rewrite lookup_insert_ne in Hm by done. by left.
  - right. exists row'. split; [by right|done].
Qed.

Lemma fold_written (lm : gmap string string) (rows : list (string * Z)) (row : string * Z) :
  ∀ m0 : ClickStats,
    row ∈ rows →
    is_Some (foldl (SQLite.record_group lm) m0 rows !! default ""%string (lm !! row.1)).
Proof.
  assert (Hkeep : ∀ rows' (m0 : ClickStats) k,
            is_Some (m0 !! k) → is_Some (foldl (SQLite.record_group lm) m0 rows' !! k)).
  { induction rows' as [|x rows' IH]; intros m0 k Hk; cbn [foldl]; [done|].
    apply IH. unfold SQLite.record_group.
    destruct (decide (default ""%string (lm !! x.1) = k)) as [->|Hne].
    - rewrite lookup_insert_eq. by eexists.
    - by rewrite lookup_insert_ne. }
  induction rows as [|x rows IH]; intros m0 Hin; [by apply elem_of_nil in Hin|].
  cbn [foldl]. apply elem_of_cons in Hin as [->|Hin]; [|by apply IH].
  apply Hkeep. unfold SQLite.record_group. rewrite lookup_insert_eq. by eexists.
Qed.

Section LoadStatsExtras.

Variable linkID : string → string.

Implicit Types (s : SQLite.SQLiteDB) (m : ClickStats).

(** X8: every entry of the map that [LoadStats] returns is the total of
    the clicks of one identifier of the ledger, and its key is either
    the empty string or the short name of a stored Link whose normalised
    identifier is that identifier. *)
Theorem LoadStats_entries s (io1 io2 : option error) m (k : string) (v : Z) :
  SQLite.LoadStats linkID s io1 io2 = inr m →
  m !! k = Some v →
  ∃ id, id ∈ SQLite.stat_ID <$> SQLite.Stats s ∧
        v = total (SQLite.clicks_of_id id (SQLite.Stats s)) ∧
        (k ≠ ""%string →
         id = linkID k ∧ ∃ r, r ∈ SQLite.Links s ∧ SQLite.row_Short r = k).
Proof.
  unfold SQLite.LoadStats, SQLite.LoadAll.
  destruct io1; [discriminate|]. destruct io2; [discriminate|].
  destruct (SQLite.select_sum_clicks_group_by_id _) as [rows|] eqn:Hsel; [|discriminate].
  apply select_sum_rows in Hsel as [Hkeys Htotal].
  intros [= <-] Hm. apply fold_keys in Hm as [Hm|(row & Hrow & Hk & Hv)].
  { by rewrite lookup_empty in Hm. }
  exists row.1. split_and!.
  - apply elem_of_remove_dups. rewrite <- Hkeys. by apply list_elem_of_fmap_2.
  - rewrite <- Hv. by apply Htotal.
  - intros Hne. unfold SQLite.linkmap_of in Hk.
    destruct (foldl _ _ _ !! row.1) as [n|] eqn:Hlm; cbn in Hk; [subst n|done].
    apply linkmap_sound in Hlm as [Hlm|(Hid & l & Hl & Hs)].
    + by rewrite lookup_empty in Hlm.
    + split; [done|]. apply list_elem_of_fmap in Hl as (r & -> & Hr). by exists r.
Qed.

(** X9: when the ledger holds an identifier that is not the normalised
    short name of any stored Link, the map that [LoadStats] returns has
    an entry under the empty string. *)
Theorem LoadStats_orphan_under_empty_key s (io1 io2 : option error) m (id : string) :
  SQLite.LoadStats linkID s io1 io2 = inr m →
  id ∈ SQLite.stat_ID <$> SQLite.Stats s →
  (∀ r, r ∈ SQLite.Links s → linkID (SQLite.row_Short r) ≠ id) →
  is_Some (m !! ""%string).
Proof.
  unfold SQLite.LoadStats, SQLite.LoadAll.
  destruct io1; [discriminate|]. destruct io2; [discriminate|].
  destruct (SQLite.select_sum_clicks_group_by_id _) as [rows|] eqn:Hsel; [|discriminate].
  apply select_sum_rows in Hsel as [Hkeys _].
  intros [= <-] Hid Horphan.
  assert (Hrow : ∃ row, row ∈ rows ∧ row.1 = id).
  { apply elem_of_remove_dups in Hid. rewrite <- Hkeys in Hid.
    apply list_elem_of_fmap in Hid as (row & -> & Hrow). by exists row. }
  destruct Hrow as (row & Hrow & <-).
  set (lm := SQLite.linkmap_of linkID _).
  assert (Hlm : lm !! row.1 = None).
  { destruct (lm !! row.1) as [n|] eqn:Hlm; [|done].
    apply linkmap_sound in Hlm as [Hlm|(Hid' & l & Hl & Hs)].
    - by rewrite lookup_empty in Hlm.
    - apply list_elem_of_fmap in Hl as (r & -> & Hr). cbn in Hs. subst n.
      by destruct (Horphan r Hr). }
  pose proof (fold_written lm rows row ∅ Hrow) as Hw. by rewrite Hlm in Hw.
Qed.

End LoadStatsExtras.

Lemma LoadStats_entries_witness :
  let s := run linkID_lower sample_history in
  SQLite.LoadStats linkID_lower s None None = inr {[ "foo"%string := 5 ]} ∧
  ∃ id, id ∈ SQLite.stat_ID <$> SQLite.Stats s ∧
        5 = total (SQLite.clicks_of_id id (SQLite.Stats s)) ∧
        ("foo"%string ≠ ""%string →
         id = linkID_lower "foo" ∧ ∃ r, r ∈ SQLite.Links s ∧ SQLite.row_Short r = "foo"%string).
Proof.
  intros s.
  assert (Hm : SQLite.LoadStats linkID_lower s None None = inr {[ "foo"%string := 5 ]})
    by (vm_compute; reflexivity).
  split; [exact Hm|].
  exact (LoadStats_entries linkID_lower s None None _ "foo" 5 Hm eq_refl).
Defined.

Lemma LoadStats_orphan_under_empty_key_witness :
  let s := run linkID_lower orphan_history in
  SQLite.LoadStats linkID_lower s None None = inr {[ ""%string := 5 ]} ∧
  "foo"%string ∈ SQLite.stat_ID <$> SQLite.Stats s ∧
  is_Some (({[ ""%string := 5 ]} : ClickStats) !! ""%string).
Proof.
  intros s.
  assert (Hm : SQLite.LoadStats linkID_lower s None None = inr {[ ""%string := 5 ]})
    by (vm_compute; reflexivity).
  assert (Hid : "foo"%string ∈ SQLite.stat_ID <$> SQLite.Stats s) by (vm_compute; left).
  split; [exact Hm|]. split; [exact Hid|].
  apply (LoadStats_orphan_under_empty_key linkID_lower s None None _ "foo" Hm Hid).
  intros r Hr. assert (HL : SQLite.Links s = []) by (vm_compute; reflexivity).
  rewrite HL in Hr. exfalso. exact (proj1 (elem_of_nil r) Hr).
Defined.

(** * Further properties of the remote store *)

Lemma foldl_insert_lookup {V} (L : list (string * V)) (k : string) :
  ∀ c : gmap string V,
    NoDup L.*1 →
    foldl (λ m kv, <[kv.1 := kv.2]> m) c L !! k
    = match (list_to_map L : gmap string V) !! k with
      | Some v => Some v
      | None => c !! k
      end.
Proof.
  induction L as [|[k0 v0] L IH]; intros c Hnd.
  - cbn. by rewrite lookup_empty.
  - cbn [foldl fst snd]. rewrite list_to_map_cons. rewrite fmap_cons in Hnd. apply NoDup_cons in Hnd as [Hk0 Hnd]. cbn [fst] in Hk0.
    rewrite IH by done. destruct (decide (k0 = k)) as [->|Hne].
    + rewrite (proj1 (not_elem_of_list_to_map _ _) Hk0). by rewrite !lookup_insert_eq.
    + by rewrite !lookup_insert_ne.
Qed.

Lemma foldl_insert_list_to_map {V} (L : list (string * V)) :
  NoDup L.*1 → foldl (λ m kv, <[kv.1 := kv.2]> m) (∅ : gmap string V) L = list_to_map L.
Proof.
  intros Hnd. apply map_eq. intros k. rewrite foldl_insert_lookup by done.
  rewrite lookup_empty. by destruct (_ !! k).
Qed.

(** The loop of [LoadStats] on totals that are all whole numbers up to
    2^53: it returns, and it returns these totals. *)
Lemma collect_clicks_numbers (L : list (string * Convex.json)) :
  ∀ clicks : ClickStats,
    NoDup L.*1 →
    Forall (λ kv, ∃ z, kv.2 = Convex.JNum z ∧ within_2_53 z) L →
    ∃ R : ClickStats,
      Convex.collect_clicks L clicks = Convex.Returns (inr R) ∧
      ∀ k, R !! k = match (list_to_map L : gmap string Convex.json) !! k with
                    | Some (Convex.JNum z) => Some z
                    | Some _ => None
                    | None => clicks !! k
                    end.
Proof.
  induction L as [|[k0 v0] L IH]; intros clicks Hnd Hnum.
  - exists clicks. split; [done|]. intros k. cbn. by rewrite lookup_empty.
  - rewrite fmap_cons in Hnd. apply NoDup_cons in Hnd as [Hk0 Hnd]. cbn [fst] in Hk0.
    apply Forall_cons in Hnum as [(z & Hv & Hz) Hnum]. cbn [snd] in Hv. subst v0.
    destruct (float64_of_Z_exact z Hz) as (Hfin & Hback & _).
    cbn [Convex.collect_clicks]. unfold Convex.Number_Float64. rewrite Hfin, Hback.
    destruct (IH (<[k0 := z]> clicks) Hnd Hnum) as (R & -> & HR).
    exists R. split; [done|]. intros k. rewrite HR, list_to_map_cons.
    destruct (decide (k0 = k)) as [->|Hne].
    + rewrite (proj1 (not_elem_of_list_to_map _ _) Hk0). by rewrite !lookup_insert_eq.
    + by rewrite !lookup_insert_ne.
Qed.

(** The loop panics as soon as it meets a value that is not a number,
    unless a number out of range has ended it before. *)
Lemma collect_clicks_panics (L : list (string * Convex.json)) :
  ∀ clicks : ClickStats,
    (∃ kv, kv ∈ L ∧ ∀ z, kv.2 ≠ Convex.JNum z) →
    (∀ kv z, kv ∈ L → kv.2 = Convex.JNum z →
             Convex.is_finite (Convex.float64_of_Z z) = true) →
    ∃ msg, Convex.collect_clicks L clicks = Convex.Panics msg.
Proof.
  induction L as [|[k0 v0] L IH]; intros clicks (kv & Hin & Hkv) Hfin.
  - by apply elem_of_nil in Hin.
  - cbn [Convex.collect_clicks].
    destruct v0 as [|b|z|str|elems|members]; try by eexists.
    unfold Convex.Number_Float64. rewrite (Hfin (k0, Convex.JNum z) z); [|left|done].
    apply IH.
    + apply elem_of_cons in Hin as [->|Hin]; [by destruct (Hkv z)|]. by exists kv.
    + intros kv' z' Hin'. apply Hfin. by right.
Qed.

Section MungeFacts.

Variable linkID : string → string.

Let put (m : gmap string Z) (kv : string * Z) : gmap string Z := <[linkID kv.1 := kv.2]> m.

Lemma munge_fold_sound (L : list (string * Z)) (id : string) (v : Z) :
  ∀ m0, foldl put m0 L !! id = Some v →
        m0 !! id = Some v ∨ ∃ kv, kv ∈ L ∧ linkID kv.1 = id ∧ kv.2 = v.
Proof.
  induction L as [|x L IH]; intros m0 Hm; cbn [foldl] in Hm; [by left|].
  apply IH in Hm as [Hm|(kv & Hin & Hid & Hv)].
  - unfold put in Hm. destruct (decide (linkID x.1 = id)) as [Heq|Hne].
    + rewrite Heq, lookup_insert_eq in Hm. injection Hm as <-.
      right. exists x. split; [left|done].
    + rewrite lookup_insert_ne in Hm by done. by left.
  - right. exists kv. split; [by right|done].
Qed.

Lemma munge_fold_complete (L : list (string * Z)) (id : string) (v : Z) :
  ∀ m0, (m0 !! id = Some v ∨ ∃ kv, kv ∈ L ∧ linkID kv.1 = id ∧ kv.2 = v) →
        (∀ kv, kv ∈ L → linkID kv.1 = id → kv.2 = v) →
        foldl put m0 L !! id = Some v.
Proof.
  induction L as [|x L IH]; intros m0 Hin Hagree; cbn [foldl].
  - destruct Hin as [Hm|(kv & Hkv & _)]; [done|by apply elem_of_nil in Hkv].
  - apply IH.
    + unfold put. destruct (decide (linkID x.1 = id)) as [Hx|Hx].
      * left. rewrite Hx, lookup_insert_eq. f_equal. apply Hagree; [left|done].
      * rewrite lookup_insert_ne by done.
        destruct Hin as [Hm|(kv & Hkv & Hid & Hv)]; [by left|].
        right. exists kv. split_and!; [|done|done].
        apply elem_of_cons in Hkv as [->|Hkv]; [done|done].
    + intros kv Hkv. apply Hagree. by right.
Qed.

Lemma munge_fold_written (L : list (string * Z)) (kv : string * Z) :
  ∀ m0, kv ∈ L → is_Some (foldl put m0 L !! linkID kv.1).
Proof.
  assert (Hkeep : ∀ L' m0 k, is_Some (m0 !! k) → is_Some (foldl put m0 L' !! k)).
  { induction L' as [|x L' IH]; intros m0 k Hk; cbn [foldl]; [done|].
    apply IH. unfold put. destruct (decide (linkID x.1 = k)) as [->|Hne].
    - rewrite lookup_insert_eq. by eexists.
    - by rewrite lookup_insert_ne. }
  induction L as [|x L IH]; intros m0 Hin; [by apply elem_of_nil in Hin|].
  cbn [foldl]. apply elem_of_cons in Hin as [->|Hin]; [|by apply IH].
  apply Hkeep. unfold put. rewrite lookup_insert_eq. by eexists.
Qed.

(** X12: the map that the remote [SaveStats] sends is keyed by the
    normalised identifiers of the names it is given.  Every delta it
    holds is the delta of one of the names with that identifier; every
    name has its identifier in it; and a name that shares its identifier
    with no other name of the argument has exactly its own delta there.
    Deltas of names that share an identifier are not added up. *)
Theorem munge_entries (stats : ClickStats) :
  (∀ id v, Convex.munge linkID stats !! id = Some v →
           ∃ k, stats !! k = Some v ∧ linkID k = id) ∧
  (∀ k v, stats !! k = Some v → is_Some (Convex.munge linkID stats !! linkID k)) ∧
  (∀ k v, stats !! k = Some v →
          (∀ k' v', stats !! k' = Some v' → linkID k' = linkID k → k' = k) →
          Convex.munge linkID stats !! linkID k = Some v).
Proof.
  unfold Convex.munge. change (λ mungedStats kv, <[linkID kv.1 := kv.2]> mungedStats) with put.
  split_and!.
  - intros id v [Hm|([k v'] & Hin & Hid & Hv)]%munge_fold_sound.
    + by rewrite lookup_empty in Hm.
    + cbn in Hid, Hv. subst. exists k. split; [|done]. by apply elem_of_map_to_list.
  - intros k v Hk. apply (munge_fold_written _ (k, v)). by apply elem_of_map_to_list.
  - intros k v Hk Halone. apply munge_fold_complete.
    + right. exists (k, v). split; [by apply elem_of_map_to_list|done].
    + intros [k' v'] Hin Hid. cbn in Hid |- *. apply elem_of_map_to_list in Hin.
      assert (k' = k) as -> by by apply (Halone k' v'). congruence.
Qed.

End MungeFacts.

Section RemoteExtras.

Variable linkID : string → string.
Variable json_Marshal : Convex.UdfExecution → error + string.
Variable http_Post : string → string → string → error + Convex.Response.
Variable json_scan : string → error + Convex.json.
Variable Sprint_reader : Convex.Response → string.

Local Abbreviation answered := (answered json_Marshal http_Post).
Local Abbreviation Load := (Convex.Load linkID json_Marshal http_Post json_scan Sprint_reader).
Local Abbreviation LoadAll := (Convex.LoadAll json_Marshal http_Post json_scan Sprint_reader).
Local Abbreviation Save := (Convex.Save linkID json_Marshal http_Post json_scan Sprint_reader).
Local Abbreviation SaveStats :=
  (Convex.SaveStats linkID json_Marshal http_Post json_scan Sprint_reader).
Local Abbreviation LoadStats :=
  (Convex.LoadStats json_Marshal http_Post json_scan Sprint_reader).

Implicit Types (c : Convex.ConvexDB) (resp : Convex.Response).

Lemma LoadStats_200 c resp (v : Convex.json) :
  answered "/api/query" c loadStats_args resp → Convex.StatusCode resp = 200 →
  json_scan (Convex.Body resp) = inr (success_envelope v) →
  LoadStats c =
    match Convex.Decode_StatsMap (Some v) with
    | inl err => Convex.Returns (inl err)
    | inr stats => Convex.collect_clicks (map_to_list stats) ∅
    end.
Proof.
  intros Hans H200 Hscan. unfold Convex.LoadStats.
  change {| Convex.Path := "stats:loadStats"; Convex.Args := ∅; Convex.Format := "json" |}
    with loadStats_args.
  by rewrite (query_200 _ _ _ _ _ _ _ _ Hans H200 Hscan), Decode_response_success.
Qed.

(** X10: when the server answers [loadStats] with an object of whole
    numbers of magnitude at most 2^53 under distinct keys, the remote
    [LoadStats] returns without panic or error, and returns exactly
    these totals under exactly these keys: the keys of the server are
    not mapped back to display names. *)
Theorem Convex_LoadStats_exact c resp (members : list (string * Z)) :
  answered "/api/query" c loadStats_args resp →
  Convex.StatusCode resp = 200 →
  json_scan (Convex.Body resp) = inr (success_envelope (stats_document members)) →
  NoDup members.*1 →
  Forall (λ kv, within_2_53 kv.2) members →
  LoadStats c = Convex.Returns (inr (list_to_map members)).
Proof.
  intros Hans H200 Hscan Hnd Hnum.
  rewrite (LoadStats_200 c resp _ Hans H200 Hscan).
  unfold stats_document, Convex.Decode_StatsMap.
  assert (Hkeys : (prod_map id Convex.JNum <$> members).*1 = members.*1).
  { rewrite <- list_fmap_compose. by apply list_fmap_ext. }
  rewrite foldl_insert_list_to_map by by rewrite Hkeys.
  rewrite list_to_map_fmap.
  set (M := Convex.JNum <$> (list_to_map members : gmap string Z)).
  destruct (collect_clicks_numbers (map_to_list M) ∅) as (R & -> & HR).
  - apply NoDup_fst_map_to_list.
  - apply Forall_forall. intros [k v] Hkv. apply elem_of_map_to_list in Hkv.
    unfold M in Hkv. rewrite lookup_fmap in Hkv.
    destruct (list_to_map members !! k) as [z|] eqn:Hz; [|discriminate].
    injection Hkv as <-. exists z. split; [done|].
    apply elem_of_list_to_map in Hz; [|done].
    by apply (proj1 (Forall_forall _ _) Hnum (k, z)).
  - do 2 f_equal. apply map_eq. intros k. rewrite HR, list_to_map_to_list.
    unfold M. rewrite lookup_fmap, lookup_empty. by destruct (list_to_map members !! k).
Qed.

(** X11: when the server answers [loadStats] with an object, under
    distinct keys, one of whose values is not a number while its numbers
    are all binary64 values, the remote [LoadStats] panics: the type
    assertion on the value has no check. *)
Theorem Convex_LoadStats_panics c resp (members : list (string * Convex.json))
    (k : string) (v : Convex.json) :
  answered "/api/query" c loadStats_args resp →
  Convex.StatusCode resp = 200 →
  json_scan (Convex.Body resp) = inr (success_envelope (Convex.JObj members)) →
  NoDup members.*1 →
  (k, v) ∈ members → (∀ z, v ≠ Convex.JNum z) →
  (∀ kv z, kv ∈ members → kv.2 = Convex.JNum z →
           Convex.is_finite (Convex.float64_of_Z z) = true) →
  ∃ msg, LoadStats c = Convex.Panics msg.
Proof.
  intros Hans H200 Hscan Hnd Hin Hv Hfin.
  rewrite (LoadStats_200 c resp _ Hans H200 Hscan). cbn [Convex.Decode_StatsMap].
  rewrite foldl_insert_list_to_map by done.
  apply collect_clicks_panics.
  - exists (k, v). split; [|done]. apply elem_of_map_to_list. by apply elem_of_list_to_map.
  - intros [k' v'] z Hkv. apply elem_of_map_to_list, elem_of_list_to_map in Hkv; [|done].
    by apply Hfin.
Qed.

(** X13: an application error of the server reaches the caller of every
    operation: when the request of [Load], [LoadAll], [LoadStats],
    [Save] or [SaveStats] is answered with status 200 and the envelope
    [{"status":"error","errorMessage":m}], the operation returns the
    error "error from Convex: " followed by [m], and no value. *)
Theorem operations_return_application_error c resp (m : string) :
  Convex.StatusCode resp = 200 →
  json_scan (Convex.Body resp) = inr (error_envelope m) →
  (∀ short, answered "/api/query" c (loadOne_args linkID short) resp →
            Load c short = inl (application_error m)) ∧
  (answered "/api/query" c loadAll_args resp → LoadAll c = inl (application_error m)) ∧
  (answered "/api/query" c loadStats_args resp →
   LoadStats c = Convex.Returns (inl (application_error m))) ∧
  (∀ link, answered "/api/mutation" c (store_args linkID link) resp →
           Save c link = Some (application_error m)) ∧
  (∀ stats, answered "/api/mutation" c (saveStats_args linkID stats) resp →
            SaveStats c stats = Some (application_error m)).
Proof.
  intros H200 Hscan. split_and!.
  - intros short Hans. unfold Convex.Load.
    change {| Convex.Path := "load:loadOne"; Convex.Args := _; Convex.Format := "json" |}
      with (loadOne_args linkID short).
    by rewrite (query_200 _ _ _ _ _ _ _ _ Hans H200 Hscan).
  - intros Hans. unfold Convex.LoadAll.
    change {| Convex.Path := "load:loadAll"; Convex.Args := ∅; Convex.Format := "json" |}
      with loadAll_args.
    by rewrite (query_200 _ _ _ _ _ _ _ _ Hans H200 Hscan).
  - intros Hans. unfold Convex.LoadStats.
    change {| Convex.Path := "stats:loadStats"; Convex.Args := ∅; Convex.Format := "json" |}
      with loadStats_args.
    by rewrite (query_200 _ _ _ _ _ _ _ _ Hans H200 Hscan).
  - intros link Hans. unfold Convex.Save.
    change {| Convex.Path := "store"; Convex.Args := _; Convex.Format := "json" |}
      with (store_args linkID link).
    by rewrite (mutation_200 _ _ _ _ _ _ _ _ Hans H200 Hscan).
  - intros stats Hans. unfold Convex.SaveStats.
    change {| Convex.Path := "stats:saveStats"; Convex.Args := _; Convex.Format := "json" |}
      with (saveStats_args linkID stats).
    by rewrite (mutation_200 _ _ _ _ _ _ _ _ Hans H200 Hscan).
Qed.

(** X14: what [Save] sends, converted back the way [Load] converts a
    document, is the saved Link with its timestamps cut to whole seconds
    and in the local zone, provided the epoch seconds are at most 2^53
    in magnitude. *)
Theorem document_round_trip (link : Link) :
  within_2_53 (Time_Unix (Created link)) → within_2_53 (Time_Unix (LastEdit link)) →
  Convex.link_of_doc (Convex.doc_of_link linkID link) = as_sent link.
Proof.
  intros (_ & Hc & _)%float64_of_Z_exact (_ & He & _)%float64_of_Z_exact.
  unfold Convex.link_of_doc, Convex.doc_of_link, as_sent.
  cbn [Convex.doc_Short Convex.doc_Long Convex.doc_Created Convex.doc_LastEdit Convex.doc_Owner].
  by rewrite Hc, He.
Qed.

(** X15: a success envelope whose value is null is an empty result for
    the two operations that load collections: [LoadAll] returns no Link
    and [LoadStats] an empty map, both without error; so does [LoadAll]
    for an empty array. *)
Theorem null_is_an_empty_collection c resp :
  Convex.StatusCode resp = 200 →
  (json_scan (Convex.Body resp) = inr (success_envelope Convex.JNull) →
   (answered "/api/query" c loadAll_args resp → LoadAll c = inr []) ∧
   (answered "/api/query" c loadStats_args resp → LoadStats c = Convex.Returns (inr ∅))) ∧
  (json_scan (Convex.Body resp) = inr (success_envelope (Convex.JArr [])) →
   answered "/api/query" c loadAll_args resp → LoadAll c = inr []).
Proof.
  intros H200. split; [intros Hscan; split|intros Hscan]; intros Hans.
  - by rewrite (LoadAll_200 _ _ _ _ _ _ _ Hans H200 Hscan).
  - by rewrite (LoadStats_200 c resp _ Hans H200 Hscan).
  - by rewrite (LoadAll_200 _ _ _ _ _ _ _ Hans H200 Hscan).
Qed.

(** X16: when the encoder succeeds and the transport fails, every
    operation returns the error of the transport and nothing is
    decoded. *)
Theorem operations_return_transport_error c (err : error) :
  (∀ args, ∃ encodedArgs, json_Marshal args = inr encodedArgs) →
  (∀ url contentType body, http_Post url contentType body = inl err) →
  (∀ short, Load c short = inl err) ∧
  LoadAll c = inl err ∧
  LoadStats c = Convex.Returns (inl err) ∧
  (∀ link, Save c link = Some err) ∧
  (∀ stats, SaveStats c stats = Some err).
Proof.
  intros Hmarshal Hpost.
  assert (Hq : ∀ args, (Convex.query json_Marshal http_Post json_scan Sprint_reader c args).2
                       = inl err).
  { intros args. unfold Convex.query.
    destruct (Hmarshal (Convex.with_token c args)) as [enc ->]. by rewrite Hpost. }
  assert (Hm : ∀ args, (Convex.mutation json_Marshal http_Post json_scan Sprint_reader c args).2
                       = Some err).
  { intros args. unfold Convex.mutation.
    destruct (Hmarshal (Convex.with_token c args)) as [enc ->]. by rewrite Hpost. }
  split_and!.
  - intros short. unfold Convex.Load. by rewrite Hq.
  - unfold Convex.LoadAll. by rewrite Hq.
  - unfold Convex.LoadStats. by rewrite Hq.
  - intros link. unfold Convex.Save. by rewrite Hm.
  - intros stats. unfold Convex.SaveStats. by rewrite Hm.
Qed.

End RemoteExtras.

Lemma munge_entries_witness :
  let stats : ClickStats := {[ "Foo"%string := 3 ]} in
  stats !! "Foo"%string = Some 3 ∧
  Convex.munge linkID_lower stats !! "foo"%string = Some 3.
Proof.
  intros stats. split; [reflexivity|].
  apply (proj2 (proj2 (munge_entries linkID_lower stats)) "Foo"%string 3).
  - reflexivity.
  - intros k' v' Hk' _. apply lookup_singleton_Some in Hk' as [<- _]. reflexivity.
Defined.

Lemma Convex_LoadStats_exact_witness :
  let members := [("foo"%string, 5); ("bar"%string, 1700000000)] in
  NoDup members.*1 ∧ Forall (λ kv, within_2_53 kv.2) members ∧
  Convex.LoadStats stub_Marshal (stub_Post ok_response)
    (stub_scan (success_envelope (stats_document members))) stub_Sprint sample_client
  = Convex.Returns (inr (list_to_map members)).
Proof.
  intros members.
  assert (Hnd : NoDup members.*1).
  { apply (bool_decide_unpack (NoDup members.*1)). vm_compute. exact I. }
  assert (Hnum : Forall (λ kv, within_2_53 kv.2) members).
  { repeat constructor; cbn; lia. }
  split; [exact Hnd|]. split; [exact Hnum|].
  apply (Convex_LoadStats_exact stub_Marshal (stub_Post ok_response)
           (stub_scan (success_envelope (stats_document members))) stub_Sprint
           sample_client ok_response members).
  - eexists. split; reflexivity.
  - reflexivity.
  - reflexivity.
  - exact Hnd.
  - exact Hnum.
Defined.

Lemma Convex_LoadStats_panics_witness :
  let members := [("foo"%string, Convex.JNum 5); ("bar"%string, Convex.JStr "many")] in
  Convex.LoadStats stub_Marshal (stub_Post ok_response)
    (stub_scan (success_envelope (Convex.JObj members))) stub_Sprint sample_client
  = Convex.Panics "interface conversion: interface {} is not json.Number".
Proof.
  intros members.
  destruct (Convex_LoadStats_panics stub_Marshal (stub_Post ok_response)
              (stub_scan (success_envelope (Convex.JObj members))) stub_Sprint
              sample_client ok_response members "bar" (Convex.JStr "many")) as [msg Hmsg].
  - eexists. split; reflexivity.
  - reflexivity.
  - reflexivity.
  - apply (bool_decide_unpack (NoDup members.*1)). vm_compute. exact I.
  - right. left.
  - discriminate.
  - intros kv z [->|[->|Hin%elem_of_nil]%elem_of_cons]%elem_of_cons; [|discriminate|done].
    intros [= <-]. reflexivity.
  - rewrite Hmsg. vm_compute in Hmsg. exact (eq_sym Hmsg).
Defined.

Lemma operations_return_application_error_witness :
  Convex.Load linkID_lower stub_Marshal (stub_Post ok_response)
    (stub_scan (error_envelope "boom")) stub_Sprint sample_client "foo"
  = inl (Errorf "error from Convex: boom") ∧
  Convex.SaveStats linkID_lower stub_Marshal (stub_Post ok_response)
    (stub_scan (error_envelope "boom")) stub_Sprint sample_client {[ "foo"%string := 3 ]}
  = Some (Errorf "error from Convex: boom").
Proof.
  pose proof (operations_return_application_error linkID_lower stub_Marshal
                (stub_Post ok_response) (stub_scan (error_envelope "boom")) stub_Sprint
                sample_client ok_response "boom" eq_refl eq_refl)
    as (HLoad & _ & _ & _ & HSaveStats).
  split.
  - apply HLoad. eexists. split; reflexivity.
  - apply HSaveStats. eexists. split; reflexivity.
Defined.

Lemma document_round_trip_witness :
  let link := sample_link "foo" "http://example.com" in
  within_2_53 (Time_Unix (Created link)) ∧ within_2_53 (Time_Unix (LastEdit link)) ∧
  Convex.link_of_doc (Convex.doc_of_link linkID_lower link)
  = {| Short := "foo"; Long := "http://example.com";
       Created := {| unix_sec := 1700000000; nsec := 0; loc := Local |};
       LastEdit := {| unix_sec := 1700000000; nsec := 0; loc := Local |};
       Owner := "alice" |}.
Proof.
  intros link.
  assert (Hc : within_2_53 (Time_Unix (Created link))) by (unfold within_2_53; cbn; lia).
  assert (He : within_2_53 (Time_Unix (LastEdit link))) by (unfold within_2_53; cbn; lia).
  split; [exact Hc|]. split; [exact He|].
  exact (document_round_trip linkID_lower link Hc He).
Defined.

Lemma null_is_an_empty_collection_witness :
  Convex.LoadAll stub_Marshal (stub_Post ok_response)
    (stub_scan (success_envelope Convex.JNull)) stub_Sprint sample_client = inr [] ∧
  Convex.LoadStats stub_Marshal (stub_Post ok_response)
    (stub_scan (success_envelope Convex.JNull)) stub_Sprint sample_client
  = Convex.Returns (inr ∅).
Proof.
  pose proof (null_is_an_empty_collection stub_Marshal (stub_Post ok_response)
                (stub_scan (success_envelope Convex.JNull)) stub_Sprint
                sample_client ok_response eq_refl) as [Hnull _].
  destruct (Hnull eq_refl) as [HAll HStats].
  split; [apply HAll|apply HStats]; eexists; split; reflexivity.
Defined.

Lemma operations_return_transport_error_witness :
  let err := DriverError "dial tcp: connection refused" in
  Convex.Load linkID_lower stub_Marshal (failing_Post err) (stub_scan Convex.JNull)
    stub_Sprint sample_client "foo" = inl err ∧
  Convex.Save linkID_lower stub_Marshal (failing_Post err) (stub_scan Convex.JNull)
    stub_Sprint sample_client (sample_link "foo" "http://example.com") = Some err.
Proof.
  intros err.
  pose proof (operations_return_transport_error linkID_lower stub_Marshal (failing_Post err)
                (stub_scan Convex.JNull) stub_Sprint sample_client err) as H.
  destruct H as (HLoad & _ & _ & HSave & _).
  - intros args. by eexists.
  - reflexivity.
  - split; [apply HLoad|apply HSave].
Defined.

(** * The local store: the check of Save and the totals of stored Links *)

Section LocalStoreTotals.

Variable linkID : string → string.

Implicit Types (s : SQLite.SQLiteDB) (l : Link) (m : ClickStats).


(** X18: on a store whose keys are unique and are the normalised short
    names of their rows, whenever [LoadStats] returns a map, its entry
    under the short name of a stored Link, the name not being empty, is
    the sum of all clicks that the ledger holds for the identifier of
    that Link (zero when it holds none). *)
Theorem LoadStats_total_of_stored_link s (io1 io2 : option error) m (r : SQLite.LinkRow) :
  consistent linkID s →
  SQLite.LoadStats linkID s io1 io2 = inr m →
  r ∈ SQLite.Links s →
  SQLite.row_Short r ≠ ""%string →
  clicks_at m (SQLite.row_Short r)
  = total (SQLite.clicks_of_id (SQLite.row_ID r) (SQLite.Stats s)).
Proof.
  intros Hcons Hm Hr Hn.
  assert (Hid : SQLite.row_ID r = linkID (SQLite.row_Short r)).
  { destruct Hcons as [_ Hid]. by apply (proj1 (Forall_forall _ _) Hid). }
  pose proof (linkmap_of_row linkID s r Hcons Hr) as Hlm.
  revert Hm. unfold SQLite.LoadStats, SQLite.LoadAll.
  destruct io1; [discriminate|]. destruct io2; [discriminate|].
  destruct (SQLite.select_sum_clicks_group_by_id _) as [rows|] eqn:Hsel; [|discriminate].
  apply select_sum_rows in Hsel as [Hkeys Htotal]. intros [= <-].
  set (lm := SQLite.linkmap_of linkID _) in *.
  assert (Hinj : ∀ id, lm !! id = Some (SQLite.row_Short r) → id = linkID (SQLite.row_Short r)).
  { intros id Hlook. apply linkmap_sound in Hlook as [Hlook|[-> _]]; [|done].
    by rewrite lookup_empty in Hlook. }
  unfold clicks_at. rewrite Hid.
  destruct (decide (linkID (SQLite.row_Short r) ∈ rows.*1)) as [Hin|Hout].
  - apply list_elem_of_fmap in Hin as ([id v] & Hfst & Hrow). cbn in Hfst. subst id.
    rewrite (fold_write linkID lm rows _ v); [|done|done|done| |done].
    + cbn. f_equal. exact (Htotal _ Hrow).
    + rewrite Hkeys. apply NoDup_remove_dups.
  - rewrite fold_no_write.
    + rewrite lookup_empty. cbn. rewrite clicks_of_absent_id; [done|].
      by rewrite <- elem_of_remove_dups, <- Hkeys.
    + intros row Hrow Hshort. apply Hout.
      destruct (lm !! row.1) as [n'|] eqn:Hrow1; cbn in Hshort; [|done].
      subst n'. apply Hinj in Hrow1. rewrite <- Hrow1. by apply list_elem_of_fmap_2.
Qed.

End LocalStoreTotals.


Lemma LoadStats_total_of_stored_link_witness :
  let s := run linkID_lower alias_history in
  let r := SQLite.row_of_link linkID_lower (sample_link "foo" "http://example.com") in
  SQLite.LoadStats linkID_lower s None None = inr {[ "foo"%string := 5 ]} ∧
  clicks_at {[ "foo"%string := 5 ]} "foo"
  = total (SQLite.clicks_of_id (SQLite.row_ID r) (SQLite.Stats s)).
Proof.
  intros s r.
  assert (Hm : SQLite.LoadStats linkID_lower s None None = inr {[ "foo"%string := 5 ]})
    by (vm_compute; reflexivity).
  split; [exact Hm|].
  apply (LoadStats_total_of_stored_link linkID_lower s None None _ r
           (consistent_run linkID_lower alias_history) Hm).
  - assert (HL : SQLite.Links s = [r]) by (vm_compute; reflexivity). rewrite HL. left.
  - discriminate.
Defined.
